(** * redirector: the deny decision, the blacklist loader and the org-mode
    clock watcher of [proxy.go], embedded in Rocq.

    Go strings are byte sequences: they are modelled by [string], whose
    characters are the 256 values of [ascii].  Go's [int] is taken to be 64
    bits wide and is modelled by [Z]; the only place where the width shows is
    the clamping of [strconv.Atoi].  The standard-library functions the
    program calls ([strings.Contains], [strings.Split], [strconv.Atoi],
    [regexp.MatchString], [bufio.Reader.ReadLine], [filepath.Walk]) are
    modelled in modules named after their packages. *)

From Stdlib Require Import ZArith List Bool Ascii String Lia Arith.
From Stdlib Require Import DecimalString DecimalNat.
From Equations Require Import Equations.
Import ListNotations.

Set Warnings "-register-all".

Open Scope string_scope.
Open Scope list_scope.

(** ** Outcomes of Go code that may panic *)

Inductive result (A : Type) : Type :=
| Returns (a : A)
| Panics.
Arguments Returns {A} a.
Arguments Panics {A}.

Definition bind {A B : Type} (m : result A) (k : A -> result B) : result B :=
  match m with
  | Returns a => k a
  | Panics => Panics
  end.

Notation "x <- m ;; k" := (bind m (fun x => k))
  (at level 61, m at next level, right associativity).
Notation "' p <- m ;; k" := (bind m (fun x => let p := x in k))
  (at level 61, p pattern, m at next level, right associativity).

(** [l[i]] on a slice: an index out of range is a run-time panic. *)
Definition slice_index {A : Type} (l : list A) (i : nat) : result A :=
  match nth_error l i with
  | Some x => Returns x
  | None => Panics
  end.

(** Go's [error] values, as far as the program tells them apart. *)
Inductive error : Type :=
| EOF                               (* io.EOF *)
| PathError (op : string).          (* *os.PathError of open, read, lstat, readdir *)

Definition newline : ascii := "010"%char.
Definition carriage_return : ascii := "013"%char.

(** ** package strings *)

Module strings.

Fixpoint HasPrefix (s prefix : string) {struct prefix} : bool :=
  match prefix with
  | EmptyString => true
  | String p ps =>
      match s with
      | EmptyString => false
      | String c cs => Ascii.eqb c p && HasPrefix cs ps
      end
  end.

(** [strings.Contains(s, substr)]: [substr] occurs at some offset of [s]. *)
Fixpoint Contains (s substr : string) : bool :=
  HasPrefix s substr ||
  match s with
  | EmptyString => false
  | String _ s' => Contains s' substr
  end.

(** [strings.Split(s, sep)] for a separator of one byte, the only kind the
    program passes ([","] and ["-"]): the pieces between the occurrences of
    [sep], always at least one piece. *)
Fixpoint Split (s : string) (sep : ascii) : list string :=
  match s with
  | EmptyString => [EmptyString]
  | String c s' =>
      if Ascii.eqb c sep then EmptyString :: Split s' sep
      else match Split s' sep with
           | piece :: pieces => String c piece :: pieces
           | [] => [String c EmptyString]
           end
  end.

End strings.

(** ** package strconv *)

Module strconv.

Inductive NumError : Type := ErrSyntax | ErrRange.

Definition digit (c : ascii) : option Z :=
  let n := Z.of_N (N_of_ascii c) in
  if ((48 <=? n) && (n <=? 57))%Z then Some (n - 48)%Z else None.

Fixpoint digits (s : string) (acc : Z) : option Z :=
  match s with
  | EmptyString => Some acc
  | String c s' =>
      match digit c with
      | Some d => digits s' (acc * 10 + d)%Z
      | None => None
      end
  end.

Definition maxInt : Z := (2 ^ 63 - 1)%Z.
Definition minInt : Z := (- 2 ^ 63)%Z.

(** [strconv.Atoi]: an optional sign and decimal digits.  A syntax error
    gives the value 0, a value out of the range of [int] gives the nearest
    bound; both come with an error. *)
Definition Atoi (s : string) : Z * option NumError :=
  let '(neg, body) :=
    match s with
    | String c b =>
        if Ascii.eqb c "+" then (false, b)
        else if Ascii.eqb c "-" then (true, b)
        else (false, s)
    | EmptyString => (false, s)
    end in
  match body with
  | EmptyString => (0%Z, Some ErrSyntax)
  | String _ _ =>
      match digits body 0 with
      | None => (0%Z, Some ErrSyntax)
      | Some n =>
          if neg then
            if (n >? - minInt)%Z then (minInt, Some ErrRange) else ((- n)%Z, None)
          else
            if (n >? maxInt)%Z then (maxInt, Some ErrRange) else (n, None)
      end
  end.

End strconv.

(** ** package regexp

    The fragment of RE2 syntax the program's three patterns use: literal
    bytes, escaped punctuation, [.] (any character but a newline) and the
    postfix star.  Matching is by Brzozowski derivatives; [MatchString]
    reports whether some substring of the subject is in the language, as Go's
    unanchored search does.  The patterns are ASCII, so matching bytes and
    matching runes agree. *)

Module regexp.

Inductive re : Type :=
| Void
| Eps
| Chr (c : ascii)
| Dot
| Alt (r1 r2 : re)
| Cat (r1 r2 : re)
| Star (r : re).

Inductive token : Type :=
| TAtom (r : re)
| TStar.

Definition is_meta (c : ascii) : bool :=
  existsb (Ascii.eqb c) (list_ascii_of_string "\.+*?()|[]{}^$").

(** Lexing: [None] stands for a pattern outside the fragment (or a trailing
    backslash), which [MatchString] reports as an error. *)
Fixpoint lex (pattern : string) : option (list token) :=
  match pattern with
  | EmptyString => Some []
  | String c p1 =>
      if Ascii.eqb c "\" then
        match p1 with
        | String e p2 =>
            if is_meta e then option_map (cons (TAtom (Chr e))) (lex p2) else None
        | EmptyString => None
        end
      else if Ascii.eqb c "." then option_map (cons (TAtom Dot)) (lex p1)
      else if Ascii.eqb c "*" then option_map (cons TStar) (lex p1)
      else if is_meta c then None
      else option_map (cons (TAtom (Chr c))) (lex p1)
  end.

Fixpoint build (ts : list token) : option re :=
  match ts with
  | [] => Some Eps
  | TStar :: _ => None                    (* missing argument to repetition *)
  | TAtom a :: ts1 =>
      match ts1 with
      | TStar :: ts2 => option_map (Cat (Star a)) (build ts2)
      | _ => option_map (Cat a) (build ts1)
      end
  end.

Definition Compile (pattern : string) : option re :=
  match lex pattern with
  | Some ts => build ts
  | None => None
  end.

Fixpoint nullable (r : re) : bool :=
  match r with
  | Void => false
  | Eps => true
  | Chr _ => false
  | Dot => false
  | Alt r1 r2 => nullable r1 || nullable r2
  | Cat r1 r2 => nullable r1 && nullable r2
  | Star _ => true
  end.

Definition alt (r1 r2 : re) : re :=
  match r1, r2 with
  | Void, _ => r2
  | _, Void => r1
  | _, _ => Alt r1 r2
  end.

Definition cat (r1 r2 : re) : re :=
  match r1 with
  | Void => Void
  | Eps => r2
  | _ => Cat r1 r2
  end.

Fixpoint deriv (c : ascii) (r : re) : re :=
  match r with
  | Void => Void
  | Eps => Void
  | Chr d => if Ascii.eqb c d then Eps else Void
  | Dot => if Ascii.eqb c newline then Void else Eps
  | Alt r1 r2 => alt (deriv c r1) (deriv c r2)
  | Cat r1 r2 =>
      if nullable r1 then alt (cat (deriv c r1) r2) (deriv c r2)
      else cat (deriv c r1) r2
  | Star r1 => cat (deriv c r1) (Star r1)
  end.

(** Some prefix of [s] is in the language of [r]. *)
Fixpoint match_prefix (r : re) (s : string) : bool :=
  nullable r ||
  match s with
  | EmptyString => false
  | String c s' => match_prefix (deriv c r) s'
  end.

(** Some substring of [s] is in the language of [r]. *)
Fixpoint search (r : re) (s : string) : bool :=
  match_prefix r s ||
  match s with
  | EmptyString => false
  | String _ s' => search r s'
  end.

Inductive SyntaxError : Type := ErrParse.

(** [regexp.MatchString(pattern, s)] returns [(matched, err)]. *)
Definition MatchString (pattern s : string) : bool * option SyntaxError :=
  match Compile pattern with
  | Some r => (search r s, None)
  | None => (false, Some ErrParse)
  end.

End regexp.

(** ** package bufio *)

Module bufio.

(** What is left to deliver of the underlying file, the size of the buffer,
    and the error the file reports once its data is used up ([EOF] for a
    file read to its end). *)
Record Reader : Type := {
  size : nat;
  rest : string;
  last : error
}.

Inductive slice_end : Type :=
| Delim          (* the delimiter was found in the buffer *)
| Full           (* ErrBufferFull: [size] bytes and no delimiter *)
| Drained.       (* the data ran out: the pending error is returned *)

(** [ReadSlice('\n')] over a buffer with room for [n] more bytes: the bytes
    up to and including the first newline, and what stays unread. *)
Fixpoint ReadSlice (n : nat) (s : string) : string * string * slice_end :=
  match n with
  | O => (EmptyString, s, Full)
  | S n' =>
      match s with
      | EmptyString => (EmptyString, EmptyString, Drained)
      | String c s' =>
          if Ascii.eqb c newline then (String c EmptyString, s', Delim)
          else let '(line, unread, e) := ReadSlice n' s' in (String c line, unread, e)
      end
  end.

(** [line[:len(line)-1]] when the last byte is [c]. *)
Fixpoint drop_last (c : ascii) (line : string) : option string :=
  match line with
  | EmptyString => None
  | String d EmptyString => if Ascii.eqb d c then Some EmptyString else None
  | String d line' => option_map (String d) (drop_last c line')
  end.

(** [ReadLine] returns [(line, isPrefix, err)]; the fourth component is the
    reader afterwards. *)
Definition ReadLine (b : Reader) : string * bool * option error * Reader :=
  let '(line, unread, e) := ReadSlice (size b) (rest b) in
  let after r := {| size := size b; rest := r; last := last b |} in
  match e with
  | Full =>
      (* a "\r" at the end of the buffer is put back for the next call *)
      match drop_last carriage_return line with
      | Some line' => (line', true, None, after (String carriage_return unread))
      | None => (line, true, None, after unread)
      end
  | Drained =>
      match line with
      | EmptyString => (EmptyString, false, Some (last b), after unread)
      | String _ _ => (line, false, None, after unread)
      end
  | Delim =>
      match drop_last newline line with
      | Some body =>
          match drop_last carriage_return body with
          | Some body' => (body', false, None, after unread)
          | None => (body, false, None, after unread)
          end
      | None => (line, false, None, after unread)
      end
  end.

End bufio.

(** ** The world outside the process *)

(** An opened file: its bytes, and whether reading it ends in an I/O error
    instead of the end of the file. *)
Record File : Type := {
  contents : string;
  readFails : bool
}.

(** [os.FileInfo], as far as [Visit] looks at it. *)
Record FileInfo : Type := { IsDir : bool }.

(** A directory tree as [filepath.Walk] finds it.  Every node carries the
    path that [Walk] hands to its callback (the root as given, an entry as
    [Join(dir, name)]); the entries of a directory are in the order in which
    [Walk] visits them. *)
Inductive Node : Type :=
| NoInfo (path : string)                          (* Lstat failed *)
| Plain (path : string)                           (* anything but a directory *)
| Folder (path : string) (names : option (list Node)).
                                                  (* [None]: the directory cannot be read *)

Record World : Type := {
  os_Open : string -> option File;                (* [None]: os.Open returns an error *)
  tree : string -> Node                           (* what Walk finds at a root *)
}.

(** ** package filepath *)

Module filepath.

Section Walk.

Context {S : Type}.
Variable walkFn : string -> option FileInfo -> option error -> S -> result (option error * S).

(** The loop of [filepath.walk] over the entries of a directory. *)
Definition each (walk : Node -> S -> result (option error * S))
  : list Node -> S -> result (option error * S) :=
  fix each (names : list Node) (st : S) : result (option error * S) :=
    match names with
    | [] => Returns (None, st)
    | child :: names' =>
        '(err, st') <- walk child st ;;
        match err with
        | Some _ => Returns (err, st')
        | None => each names' st'
        end
    end.

(** [filepath.walk]: the callback's error stops the walk.  [error] has no
    [SkipDir] or [SkipAll], which the callback of this program never
    returns. *)
Fixpoint walk (n : Node) (st : S) : result (option error * S) :=
  match n with
  | NoInfo path => walkFn path None (Some (PathError "lstat")) st
  | Plain path => walkFn path (Some {| IsDir := false |}) None st
  | Folder path None =>
      walkFn path (Some {| IsDir := true |}) (Some (PathError "readdir")) st
  | Folder path (Some names) =>
      '(err1, st1) <- walkFn path (Some {| IsDir := true |}) None st ;;
      match err1 with
      | Some _ => Returns (err1, st1)
      | None => each walk names st1
      end
  end.

Definition Walk (w : World) (root : string) (st : S) : result (option error * S) :=
  walk (tree w root) st.

End Walk.

End filepath.

(** ** The program *)

Record Redirector : Type := {
  Hosts : list string;
  Clocking : bool;
  ProxyAddr : string;
  WebAddr : string;
  Hours : list string;
  OrgDir : string;
  Blacklist : string;
  Blockmode : bool
}.

Definition set_Hosts (hs : list string) (r : Redirector) : Redirector :=
  {| Hosts := hs; Clocking := Clocking r; ProxyAddr := ProxyAddr r;
     WebAddr := WebAddr r; Hours := Hours r; OrgDir := OrgDir r;
     Blacklist := Blacklist r; Blockmode := Blockmode r |}.

Definition set_Clocking (b : bool) (r : Redirector) : Redirector :=
  {| Hosts := Hosts r; Clocking := b; ProxyAddr := ProxyAddr r;
     WebAddr := WebAddr r; Hours := Hours r; OrgDir := OrgDir r;
     Blacklist := Blacklist r; Blockmode := Blockmode r |}.

(** [main]: the zero [Redirector] with the flags stored in it; the hours
    flag is split at its commas. *)
Definition main_flags (proxy web blacklist orgdir : string) (blockmode : bool)
    (hours : string) : Redirector :=
  {| Hosts := []; Clocking := false; ProxyAddr := proxy; WebAddr := web;
     Hours := strings.Split hours ","; OrgDir := orgdir;
     Blacklist := blacklist; Blockmode := blockmode |}.

(** What the process does to the outside: the files it opens and the lines
    it logs. *)
Inductive event : Type :=
| Opened (path : string)
| LoggedError (e : option error)                 (* log.Println(err) *)
| LoggedText (msg : string).

Record state : Type := {
  self : Redirector;
  trace : list event
}.

Definition emit (ev : event) (st : state) : state :=
  {| self := self st; trace := trace st ++ [ev] |}.

Definition update (f : Redirector -> Redirector) (st : state) : state :=
  {| self := f (self st); trace := trace st |}.

Definition NewReaderSize (f : File) (n : nat) : bufio.Reader :=
  {| bufio.size := Nat.max n 16;
     bufio.rest := contents f;
     bufio.last := if readFails f then PathError "read" else EOF |}.

(** A line is delivered ([err == nil && !isPrefix]) only when at least one
    byte was consumed: the loops over [ReadLine] terminate. *)
Lemma ReadLine_progress (b b' : bufio.Reader) (line : string) :
  bufio.ReadLine b = (line, false, None, b') ->
  (String.length (bufio.rest b') < String.length (bufio.rest b))%nat.
Proof.
  assert (H : forall n s l unread k,
            bufio.ReadSlice n s = (l, unread, k) ->
            String.length s = (String.length l + String.length unread)%nat
            /\ (k = bufio.Delim -> l <> EmptyString)).
  { induction n as [|n IH]; intros s l u k; simpl.
    - intros [= <- <- <-]. split; [reflexivity | discriminate].
    - destruct s as [|c s]; [intros [= <- <- <-]; split; [reflexivity | discriminate]|].
      destruct (Ascii.eqb c newline).
      + intros [= <- <- <-]. split; [reflexivity | discriminate].
      + destruct (bufio.ReadSlice n s) as [[l' u'] k'] eqn:E.
        intros [= <- <- <-]. destruct (IH _ _ _ _ E) as [H1 H2].
        split; [simpl; lia | discriminate]. }
  unfold bufio.ReadLine. intros e.
  destruct (bufio.ReadSlice (bufio.size b) (bufio.rest b)) as [[l u] k] eqn:E.
  destruct (H _ _ _ _ _ E) as [H1 H2].
  destruct k.
  - specialize (H2 eq_refl).
    destruct l as [|c l]; [congruence|].
    destruct (bufio.drop_last newline (String c l)) as [body|];
      [destruct (bufio.drop_last carriage_return body)|];
      inversion e; subst; simpl in *; lia.
  - destruct (bufio.drop_last carriage_return l); inversion e.
  - destruct l; inversion e; subst; simpl in *; lia.
Qed.

Definition inspect {A : Type} (a : A) : {b : A | a = b} := exist _ a eq_refl.

(** The loop both readers of the program are built on:
<<
    line, isPrefix, err := reader.ReadLine()
    for err == nil && !isPrefix {
        body(string(line))
        line, isPrefix, err = reader.ReadLine()
    }
>>
    It returns the state and the values of [isPrefix] and [err] at the exit. *)
Equations ReadLines {S : Type} (body : string -> S -> S) (b : bufio.Reader) (st : S)
  : S * bool * option error by wf (String.length (bufio.rest b)) lt :=
  ReadLines body b st with inspect (bufio.ReadLine b) := {
    | exist _ (line, false, None, b') e => ReadLines body b' (body line st)
    | exist _ (_, isPrefix, err, _) _ => (st, isPrefix, err) }.
Next Obligation. eapply ReadLine_progress; eassumption. Qed.

(** The code after either loop: a line longer than the buffer is logged
    and is no error, and so is the end of the file; any other error is
    logged and returned. *)
Definition after_loop (isPrefix : bool) (err : option error) (st : state)
  : option error * state :=
  if isPrefix then (None, emit (LoggedText "buffer size to small") st)
  else match err with
       | Some EOF => (None, st)
       | _ => (err, emit (LoggedError err) st)
       end.

Definition InitHosts (w : World) (st : state) : option error * state :=
  let path := Blacklist (self st) in
  let st := emit (Opened path) st in
  match os_Open w path with
  | None =>
      let err := Some (PathError "open") in
      (err, emit (LoggedError err) st)
  | Some f =>
      let reader := NewReaderSize f (16 * 1024) in
      let '(st, isPrefix, err) :=
        ReadLines (fun s => update (fun r => set_Hosts (Hosts r ++ [s]) r)) reader st in
      after_loop isPrefix err st
  end.

(** The window of one token of the hours flag: the bounds are the first two
    pieces between dashes, read by [Atoi] with its error dropped. *)
Definition window (token : string) : result (Z * Z) :=
  let hours := strings.Split token "-" in
  h0 <- slice_index hours 0 ;;
  let start := fst (strconv.Atoi h0) in
  h1 <- slice_index hours 1 ;;
  let stop := fst (strconv.Atoi h1) in
  Returns (start, stop).

(** The loop over [r.Hours] in [IsDenied], at the hour [h]. *)
Fixpoint hours_loop (h : Z) (tokens : list string) (deny : bool) : result bool :=
  match tokens with
  | [] => Returns deny
  | token :: tokens' =>
      if String.eqb token "" then hours_loop h tokens' deny
      else
        '(start, stop) <- window token ;;
        hours_loop h tokens' (if (h >=? start)%Z && (h <=? stop)%Z then true else deny)
  end.

(** [IsDenied]; [now] is the hour of [time.Now().Clock()]. *)
Definition IsDenied (r : Redirector) (now : Z) (host : string) : result bool :=
  let found :=
    fold_left (fun found pattern => found || strings.Contains host pattern)
              (Hosts r) false in
  let deny := Blockmode r in
  deny <- (if (0 <? List.length (Hours r))%nat
           then hours_loop now (Hours r) deny
           else Returns deny) ;;
  let deny := deny || Clocking r in
  Returns (found && deny).

(** The body of the loop of [Visit] on one line. *)
Definition clock_line (s : string) (r : Redirector) : Redirector :=
  let isClock := fst (regexp.MatchString ".*CLOCK:.*" s) in
  let isEnded := fst (regexp.MatchString ".*CLOCK:.*--.*=>.*" s) in
  if isClock && negb isEnded then set_Clocking true r else r.

(** [Visit], the callback of the walk.  [info] is [None] when [Walk] has no
    [FileInfo] to pass: [info.IsDir()] is then a nil dereference. *)
Definition Visit (w : World) (path : string) (info : option FileInfo)
    (e : option error) (st : state) : result (option error * state) :=
  match info with
  | None => Panics
  | Some info =>
      if IsDir info then Returns (None, st)
      else
        let isOrg := fst (regexp.MatchString "\.org" path) in
        if negb isOrg then Returns (None, st)
        else
          let st := emit (Opened path) st in
          match os_Open w path with
          | None =>
              let err := Some (PathError "open") in
              Returns (err, emit (LoggedError err) st)
          | Some f =>
              let reader := NewReaderSize f (16 * 1024) in
              let '(st, isPrefix, err) :=
                ReadLines (fun s => update (clock_line s)) reader st in
              Returns (after_loop isPrefix err st)
          end
  end.

(** [IsClocking]: one scan cycle of the watcher.  The error of the walk is
    dropped, as in the source. *)
Definition IsClocking (w : World) (st : state) : result state :=
  let st := update (set_Clocking false) st in
  '(_, st) <- filepath.Walk (Visit w) w (OrgDir (self st)) st ;;
  Returns st.

(** ** Notions the statements are written with *)

(** [sub] occurs in [s]. *)
Definition occurs (sub s : string) : Prop :=
  exists a b, s = (a ++ sub ++ b)%string.

(** The byte [c] does not occur in [s]. *)
Fixpoint free_of (c : ascii) (s : string) : Prop :=
  match s with
  | EmptyString => True
  | String d s' => d <> c /\ free_of c s'
  end.

(** The language of a regular expression. *)
Inductive lang : regexp.re -> string -> Prop :=
| LEps : lang regexp.Eps ""
| LChr c : lang (regexp.Chr c) (String c "")
| LDot c : c <> newline -> lang regexp.Dot (String c "")
| LAltL r1 r2 s : lang r1 s -> lang (regexp.Alt r1 r2) s
| LAltR r1 r2 s : lang r2 s -> lang (regexp.Alt r1 r2) s
| LCat r1 r2 s1 s2 : lang r1 s1 -> lang r2 s2 -> lang (regexp.Cat r1 r2) (s1 ++ s2)%string
| LStar0 r : lang (regexp.Star r) ""
| LStarS r s1 s2 : lang r s1 -> lang (regexp.Star r) s2 -> lang (regexp.Star r) (s1 ++ s2)%string.

(** The closed-interval shape [CLOCK: ... -- ... => ...]. *)
Definition closed_interval (s : string) : Prop :=
  exists a y z b, s = (a ++ "CLOCK:" ++ y ++ "--" ++ z ++ "=>" ++ b)%string.

(** The lines a reader delivers to the loop before the loop ends. *)
Definition delivered (b : bufio.Reader) : list string :=
  fst (fst (ReadLines (fun line acc => acc ++ [line]) b [])).

(** The values of [isPrefix] and [err] with which the loop ends. *)
Definition loop_exit (b : bufio.Reader) : bool * option error :=
  let '(_, isPrefix, err) := ReadLines (fun line acc => acc ++ [line]) b (@nil string) in
  (isPrefix, err).

(** A token of the hours flag that [IsDenied] can take apart: it is skipped
    when empty, and otherwise needs a dash. *)
Definition token_ok (token : string) : Prop :=
  token = "" \/ occurs "-" token.

(** The hour [h] lies in the window of the token, both ends included. *)
Definition in_window (h : Z) (token : string) : bool :=
  negb (String.eqb token "") &&
  match window token with
  | Returns (start, stop) => (start <=? h)%Z && (h <=? stop)%Z
  | Panics => false
  end.

(** A line with [CLOCK:] that is not of the closed-interval shape. *)
Definition open_clock_marker (s : string) : Prop :=
  occurs "CLOCK:" s /\ ~ closed_interval s.

(** The test of [Visit] on one line. *)
Definition marker (s : string) : bool :=
  fst (regexp.MatchString ".*CLOCK:.*" s)
  && negb (fst (regexp.MatchString ".*CLOCK:.*--.*=>.*" s)).

(** The lines of a file that a scan hands to the loop of [Visit]: the lines
    up to the end of the file or up to the first line that does not fit the
    buffer of 16 KiB. *)
Definition scanned_lines (f : File) : list string :=
  delivered (NewReaderSize f (16 * 1024)).

(** The paths of the non-directories under a node, in the order of the
    walk; an unreadable directory contributes none. *)
Fixpoint files (n : Node) : list string :=
  match n with
  | NoInfo _ => []
  | Plain path => [path]
  | Folder _ None => []
  | Folder _ (Some names) => flat_map files names
  end.

(** The file at [path] is tracked, opens, and has an open marker among its
    scanned lines. *)
Definition clocks (w : World) (path : string) : bool :=
  fst (regexp.MatchString "\.org" path)
  && match os_Open w path with
     | Some f => existsb marker (scanned_lines f)
     | None => false
     end.

(** The decimal numeral of a natural number, as [strconv.Itoa] prints it. *)
Definition Itoa (n : nat) : string :=
  NilEmpty.string_of_uint (Nat.to_uint n).

(** The token [start-stop] of the hours flag. *)
Definition token (w : nat * nat) : string :=
  (Itoa (fst w) ++ "-" ++ Itoa (snd w))%string.

(** The hours flag that configures the given windows, as the usage message
    shows it: [8-11,13-17]. *)
Definition hours_flag (windows : list (nat * nat)) : string :=
  String.concat "," (map token windows).

(** The hour [h] lies in the window, both ends included. *)
Definition contains (h : Z) (w : nat * nat) : Prop :=
  (Z.of_nat (fst w) <= h <= Z.of_nat (snd w))%Z.

(** Both bounds fit Go's [int]. *)
Definition fits (w : nat * nat) : Prop :=
  (Z.of_nat (fst w) <= strconv.maxInt)%Z /\ (Z.of_nat (snd w) <= strconv.maxInt)%Z.

(** The text of a file whose lines are [lines], each ended by a newline. *)
Fixpoint unlines (lines : list string) : string :=
  match lines with
  | [] => EmptyString
  | line :: lines' => (line ++ String newline (unlines lines'))%string
  end.

(** A file of [n] empty lines. *)
Definition blank_lines (n : nat) : string := unlines (repeat EmptyString n).

(** A line that [ReadLine] delivers as it is written: no newline in it, no
    carriage return at its end, and short enough for a buffer of [n]
    bytes. *)
Definition fits_buffer (n : nat) (line : string) : Prop :=
  free_of newline line
  /\ bufio.drop_last carriage_return line = None
  /\ (String.length line < n)%nat.

(** ** Example inputs *)

(** The flags [-hours 8-11,13-17] of the usage message. *)
Definition working_hours : Redirector :=
  set_Hosts ["facebook"] (main_flags ":8080" ":8081" "blacklist" "" false "8-11,13-17").

Definition line_feed : string := String newline EmptyString.

Definition plain_file (s : string) : File := {| contents := s; readFails := false |}.

(** A world without a blacklist file. *)
Definition no_blacklist : World :=
  {| os_Open := fun _ => None; tree := fun root => NoInfo root |}.

(** A world whose blacklist file holds two empty lines. *)
Definition blank_blacklist : World :=
  {| os_Open := fun path =>
       if String.eqb path "blacklist" then Some (plain_file (blank_lines 2)) else None;
     tree := fun root => NoInfo root |}.

Definition open_entry : string :=
  "* task" ++ line_feed ++ "  CLOCK: [2024-01-01 Mon 09:00]" ++ line_feed.

Definition closed_entry : string :=
  "* task" ++ line_feed
  ++ "  CLOCK: [2024-01-01 Mon 09:00]--[2024-01-01 Mon 10:00] =>  1:00" ++ line_feed.

(** An org directory in which [a.org] cannot be opened and [b.org], visited
    after it, holds an open clock entry. *)
Definition unreadable_first : World :=
  {| os_Open := fun path =>
       if String.eqb path "org/b.org" then Some (plain_file open_entry) else None;
     tree := fun root => Folder root (Some [Plain "org/a.org"; Plain "org/b.org"]) |}.

(** An org directory with a closed entry in [a.org], an open entry in
    [sub/b.org] and an untracked file. *)
Definition clocked_in : World :=
  {| os_Open := fun path =>
       if String.eqb path "org/a.org" then Some (plain_file closed_entry)
       else if String.eqb path "org/sub/b.org" then Some (plain_file open_entry)
       else if String.eqb path "org/notes.txt" then Some (plain_file open_entry)
       else None;
     tree := fun root =>
       Folder root (Some [Plain "org/a.org"; Plain "org/notes.txt";
                          Folder "org/sub" (Some [Plain "org/sub/b.org"])]) |}.

(** A backup file whose name only contains [.org]. *)
Definition backup_file : World :=
  {| os_Open := fun path =>
       if String.eqb path "org/notes.orgbak" then Some (plain_file open_entry) else None;
     tree := fun root => Folder root (Some [Plain "org/notes.orgbak"]) |}.

Definition watching (orgdir : string) : state :=
  {| self := main_flags ":8080" ":8081" "blacklist" orgdir false "";
     trace := [] |}.

(** ** The rest of the program *)

(** [l[i] = v] on a slice. *)
Fixpoint slice_set {A : Type} (l : list A) (i : nat) (v : A) : result (list A) :=
  match l, i with
  | [], _ => Panics
  | _ :: l', O => Returns (v :: l')
  | x :: l', S i' => l'' <- slice_set l' i' v ;; Returns (x :: l'')
  end.

(** [s[i:]] on a string: a panic when [i] is beyond the end. *)
Fixpoint slice_from (s : string) (i : nat) {struct i} : result string :=
  match i, s with
  | O, _ => Returns s
  | S _, EmptyString => Panics
  | S i', String _ s' => slice_from s' i'
  end.

(** [strings.Join(elems, sep)]. *)
Definition Join (elems : list string) (sep : string) : string :=
  String.concat sep elems.

(** The fields of [ctx.Req] that the program reads or writes. *)
Record Request : Type := {
  URL_Scheme : string;
  URL_Host : string;
  URL_Path : string;
  RequestURI : string
}.

(** [Redirect]: the request is pointed at the web server of the program. *)
Definition Redirect (r : Redirector) (req : Request) : result Request :=
  let parts := strings.Split (WebAddr r) ":" in
  p0 <- slice_index parts 0 ;;
  parts <- (if String.eqb p0 "" then slice_set parts 0 "127.0.0.1" else Returns parts) ;;
  let host := Join parts ":" in
  Returns {| URL_Scheme := "http"; URL_Host := host; URL_Path := URL_Path req;
             RequestURI := host |}.

Inductive ConnectAction : Type := OkConnect.

(** The function given to [HandleConnectFunc] in [InitProxyServer]; [req]
    is [ctx.Req], returned as the handler leaves it. *)
Definition OnConnect (r : Redirector) (now : Z) (host : string) (req : Request)
  : result (ConnectAction * string * Request) :=
  denied <- IsDenied r now (URL_Host req) ;;
  req <- (if denied then Redirect r req else Returns req) ;;
  Returns (OkConnect, host, req).

(** The function given to [DoFunc] in [InitProxyServer]; it returns the
    request and no response. *)
Definition OnRequest (r : Redirector) (now : Z) (req : Request) : result Request :=
  denied <- IsDenied r now (URL_Host req) ;;
  req <- (if denied then Redirect r req else Returns req) ;;
  Returns req.

(** What [os.Stat] reports. *)
Inductive StatResult : Type :=
| StatInfo                 (* a FileInfo and no error *)
| StatNotExist             (* an error for which os.IsNotExist holds *)
| StatError.               (* any other error *)

Definition IsNotExist (s : StatResult) : bool :=
  match s with
  | StatNotExist => true
  | _ => false
  end.

(** [ServeHTTP]: the name handed to [http.ServeFile] for a request with the
    given [URL.Path]. *)
Definition ServeHTTP (os_Stat : string -> StatResult) (path : string) : result string :=
  name <- slice_from path 1 ;;
  if IsNotExist (os_Stat name) then Returns "index.html"
  else slice_from path 1.

(** The first turns of the loop of [InitOrgReader], one for each world the
    watcher finds when it wakes up; the sleep between two turns is not
    modelled. *)
Fixpoint cycles (worlds : list World) (st : state) : result state :=
  match worlds with
  | [] => Returns st
  | w :: worlds' =>
      st <- IsClocking w st ;;
      let st := emit (LoggedText (if Clocking (self st) then "Clocking true"
                                  else "Clocking false")) st in
      cycles worlds' st
  end.

(** The part of [Init] that concerns the watcher: it runs only when an org
    directory is configured. *)
Definition Init_watcher (worlds : list World) (st : state) : result state :=
  if String.eqb (OrgDir (self st)) "" then Returns st else cycles worlds st.

(** A token on which the loop of [IsDenied] panics: not empty, and no
    dash. *)
Definition dashless (token : string) : bool :=
  negb (String.eqb token "") && negb (strings.Contains token "-").

(** The address [Redirect] sends a request to: the address of the web
    server, with the loopback address for a missing host part. *)
Definition redirect_host (addr : string) : string :=
  match addr with
  | String c _ => if Ascii.eqb c ":" then ("127.0.0.1" ++ addr)%string else addr
  | EmptyString => "127.0.0.1"
  end.

(** What a visit or a walk does to the state, whatever the state is: it may
    turn [Clocking] on and it appends events. *)
Definition absorb (x : bool) (events : list event) (st : state) : state :=
  {| self := set_Clocking (Clocking (self st) || x) (self st);
     trace := trace st ++ events |}.

(** [Lstat] succeeds for every entry under the node. *)
Fixpoint stat_ok (n : Node) : bool :=
  match n with
  | NoInfo _ => false
  | Plain _ => true
  | Folder _ None => true
  | Folder _ (Some names) => forallb stat_ok names
  end.

(** What [ReadLine] makes of the bytes before a newline: a carriage return
    at their end is dropped. *)
Definition chomp (raw : string) : string :=
  match bufio.drop_last carriage_return raw with
  | Some line => line
  | None => raw
  end.

(** A line without a newline in it that is shorter than [n] bytes. *)
Definition short (n : nat) (raw : string) : Prop :=
  free_of newline raw /\ (String.length raw < n)%nat.

(** The error a reader of the program returns after its loop has ended
    with the given [isPrefix] and [err]. *)
Definition exit_error (ex : bool * option error) : option error :=
  if fst ex then None
  else match snd ex with
       | Some EOF => None
       | e => e
       end.

(** The text of a file whose lines end in carriage return and newline. *)
Definition unlines_crlf (lines : list string) : string :=
  unlines (map (fun line => line ++ String carriage_return EmptyString)%string lines).

(** A line of [n] bytes without a newline. *)
Fixpoint filler (n : nat) : string :=
  match n with
  | O => EmptyString
  | S n' => String "a" (filler n')
  end.

(** ** Facts about strings *)

Section StringFacts.

Local Open Scope string_scope.

Lemma append_nil_r (s : string) : s ++ "" = s.
Proof. induction s as [|c s IH]; simpl; [reflexivity | now rewrite IH]. Qed.

Lemma append_assoc (a b c : string) : (a ++ b) ++ c = a ++ (b ++ c).
Proof. induction a as [|x a IH]; simpl; [reflexivity | now rewrite IH]. Qed.

Lemma HasPrefix_spec (s p : string) :
  strings.HasPrefix s p = true <-> exists t, s = p ++ t.
Proof.
  revert s. induction p as [|c p IH]; intros s; simpl.
  - split; [intros _; now exists s | reflexivity].
  - destruct s as [|d s].
    + split; [discriminate | intros [t [=]]].
    + rewrite andb_true_iff, Ascii.eqb_eq, IH. split.
      * intros [-> [t ->]]. now exists t.
      * intros [t [= -> ->]]. split; [reflexivity | now exists t].
Qed.

Lemma Contains_spec (s sub : string) :
  strings.Contains s sub = true <-> occurs sub s.
Proof.
  unfold occurs. induction s as [|c s IH].
  - simpl. rewrite orb_false_r, HasPrefix_spec. split.
    + intros [t H]. now exists "", t.
    + intros [a [b H]]. destruct a; [now exists b | discriminate].
  - cbn [strings.Contains]. rewrite orb_true_iff, HasPrefix_spec, IH. split.
    + intros [[t H] | [a [b H]]].
      * now exists "", t.
      * exists (String c a), b. simpl. now rewrite H.
    + intros [a [b H]]. destruct a as [|x a].
      * left. now exists b.
      * right. injection H as _ H. now exists a, b.
Qed.

Lemma Contains_empty (s : string) : strings.Contains s "" = true.
Proof. destruct s; reflexivity. Qed.

End StringFacts.

(** ** The matcher decides the language *)

Section RegexpFacts.

Import regexp.
Local Open Scope string_scope.

Lemma append_eq_nil (a b : string) : a ++ b = "" -> a = "" /\ b = "".
Proof. destruct a; simpl; [auto | discriminate]. Qed.

Lemma lang_Void (s : string) : ~ lang Void s.
Proof. inversion 1. Qed.

Lemma lang_Eps (s : string) : lang Eps s <-> s = "".
Proof. split; [now inversion 1 | intros ->; constructor]. Qed.

Lemma lang_Alt (r1 r2 : re) (s : string) :
  lang (Alt r1 r2) s <-> lang r1 s \/ lang r2 s.
Proof.
  split; [inversion 1; auto | intros [H | H]; [now apply LAltL | now apply LAltR]].
Qed.

Lemma lang_Cat (r1 r2 : re) (s : string) :
  lang (Cat r1 r2) s <-> exists s1 s2, s = s1 ++ s2 /\ lang r1 s1 /\ lang r2 s2.
Proof.
  split.
  - inversion 1; subst. eauto.
  - intros (s1 & s2 & -> & H1 & H2). now constructor.
Qed.

Lemma nullable_spec (r : re) : nullable r = true <-> lang r "".
Proof.
  induction r as [| | c | | r1 IH1 r2 IH2 | r1 IH1 r2 IH2 | r IH]; simpl.
  - split; [discriminate | inversion 1].
  - split; [constructor | reflexivity].
  - split; [discriminate | inversion 1].
  - split; [discriminate | inversion 1].
  - rewrite orb_true_iff, IH1, IH2. split.
    + intros [H | H]; [now apply LAltL | now apply LAltR].
    + inversion 1; subst; auto.
  - rewrite andb_true_iff, IH1, IH2. split.
    + intros [H1 H2]. now apply (LCat r1 r2 "" "").
    + rewrite lang_Cat. intros (s1 & s2 & E & H1 & H2). symmetry in E.
      apply append_eq_nil in E as [-> ->]. auto.
  - split; [constructor | reflexivity].
Qed.

Lemma alt_spec (r1 r2 : re) (s : string) :
  lang (alt r1 r2) s <-> lang r1 s \/ lang r2 s.
Proof.
  assert (V : forall t, lang Void t <-> False) by (split; [apply lang_Void | tauto]).
  unfold alt. destruct r1, r2; rewrite ?lang_Alt, ?V; tauto.
Qed.

Lemma cat_spec (r1 r2 : re) (s : string) :
  lang (cat r1 r2) s <-> exists s1 s2, s = s1 ++ s2 /\ lang r1 s1 /\ lang r2 s2.
Proof.
  rewrite <- lang_Cat. unfold cat. destruct r1; try tauto.
  - split; [inversion 1 | rewrite lang_Cat; intros (? & ? & _ & H & _); inversion H].
  - rewrite lang_Cat. split.
    + intros H. exists "", s. repeat split; [constructor | assumption].
    + intros (s1 & s2 & -> & H1 & H2). apply lang_Eps in H1 as ->. assumption.
Qed.

Lemma star_cons (r : re) (c : ascii) (s : string) :
  lang (Star r) (String c s) ->
  exists s1 s2, s = s1 ++ s2 /\ lang r (String c s1) /\ lang (Star r) s2.
Proof.
  intros H. remember (Star r) as r' eqn:Er. remember (String c s) as t eqn:Et.
  revert s Et. induction H as [| | | | | | |r0 s1 s2 H1 _ H2 IH2]; try discriminate.
  injection Er as ->. intros s Et. destruct s1 as [|d s1].
  - simpl in Et. now apply IH2.
  - simpl in Et. injection Et as -> <-. eauto.
Qed.

Lemma deriv_spec (c : ascii) (r : re) (s : string) :
  lang (deriv c r) s <-> lang r (String c s).
Proof.
  revert s.
  induction r as [| | d | | r1 IH1 r2 IH2 | r1 IH1 r2 IH2 | r IH]; intros s; simpl.
  - split; inversion 1.
  - split; inversion 1.
  - destruct (Ascii.eqb_spec c d) as [-> | N].
    + rewrite lang_Eps. split; [intros ->; constructor | now inversion 1].
    + split; [inversion 1 | inversion 1; congruence].
  - destruct (Ascii.eqb_spec c newline) as [-> | N].
    + split; [inversion 1 | inversion 1; congruence].
    + rewrite lang_Eps. split; [intros ->; now constructor | now inversion 1].
  - rewrite alt_spec, IH1, IH2, lang_Alt. tauto.
  - assert (C : lang (cat (deriv c r1) r2) s <->
                exists s1 s2, s = s1 ++ s2 /\ lang r1 (String c s1) /\ lang r2 s2).
    { rewrite cat_spec. split; intros (s1 & s2 & E & H1 & H2); exists s1, s2;
        (repeat split; [assumption | now apply IH1 | assumption]). }
    destruct (nullable r1) eqn:N.
    + rewrite alt_spec, C, IH2, lang_Cat. split.
      * intros [(s1 & s2 & -> & H1 & H2) | H].
        -- exists (String c s1), s2. auto.
        -- exists "", (String c s). repeat split; [now apply nullable_spec | assumption].
      * intros (s1 & s2 & E & H1 & H2). destruct s1 as [|d s1]; simpl in E.
        -- right. now subst.
        -- injection E as <- ->. left. eauto.
    + rewrite C, lang_Cat. split.
      * intros (s1 & s2 & -> & H1 & H2). exists (String c s1), s2. auto.
      * intros (s1 & s2 & E & H1 & H2). destruct s1 as [|d s1]; simpl in E.
        -- apply nullable_spec in H1. congruence.
        -- injection E as <- ->. eauto.
  - rewrite cat_spec. split.
    + intros (s1 & s2 & -> & H1 & H2). apply IH in H1.
      now apply (LStarS r (String c s1) s2).
    + intros H. apply star_cons in H as (s1 & s2 & -> & H1 & H2).
      exists s1, s2. repeat split; [now apply IH | assumption].
Qed.

Lemma match_prefix_spec (r : re) (s : string) :
  match_prefix r s = true <-> exists p q, s = p ++ q /\ lang r p.
Proof.
  revert r. induction s as [|c s IH]; intros r; simpl.
  - rewrite orb_false_r, nullable_spec. split.
    + intros H. now exists "", "".
    + intros (p & q & E & H). symmetry in E. apply append_eq_nil in E as [-> _].
      assumption.
  - rewrite orb_true_iff, nullable_spec, IH. split.
    + intros [H | (p & q & -> & H)].
      * now exists "", (String c s).
      * exists (String c p), q. split; [reflexivity | now apply deriv_spec].
    + intros (p & q & E & H). destruct p as [|d p]; simpl in E.
      * now left.
      * injection E as <- ->. right. exists p, q.
        split; [reflexivity | now apply deriv_spec].
Qed.

Lemma search_spec (r : re) (s : string) :
  search r s = true <-> exists a m b, s = a ++ m ++ b /\ lang r m.
Proof.
  induction s as [|c s IH]; cbn [search].
  - rewrite orb_false_r, match_prefix_spec. split.
    + intros (p & q & E & H). now exists "", p, q.
    + intros (a & m & b & E & H). destruct a; [|discriminate]. now exists m, b.
  - rewrite orb_true_iff, match_prefix_spec, IH. split.
    + intros [(p & q & E & H) | (a & m & b & -> & H)].
      * now exists "", p, q.
      * now exists (String c a), m, b.
    + intros (a & m & b & E & H). destruct a as [|d a]; simpl in E.
      * left. now exists m, b.
      * injection E as <- ->. right. now exists a, m, b.
Qed.

End RegexpFacts.

(** ** The three patterns of the program *)

Section PatternFacts.

Import regexp.
Local Open Scope string_scope.

Lemma free_of_append (c : ascii) (a b : string) :
  free_of c (a ++ b) <-> free_of c a /\ free_of c b.
Proof. induction a as [|d a IH]; simpl; tauto. Qed.

Lemma lang_Chr_Cat (c : ascii) (r : re) (m : string) :
  lang (Cat (Chr c) r) m <-> exists m', m = String c m' /\ lang r m'.
Proof.
  rewrite lang_Cat. split.
  - intros (s1 & s2 & -> & H1 & H2). inversion H1; subst. now exists s2.
  - intros (m' & -> & H). exists (String c ""), m'. repeat split; [constructor | assumption].
Qed.

Lemma lang_Star_Dot (m : string) : lang (Star Dot) m <-> free_of newline m.
Proof.
  split.
  - intros H. remember (Star Dot) as r eqn:Er.
    induction H; try discriminate; [exact I|].
    injection Er as ->. apply free_of_append. split; [|auto].
    match goal with H : lang Dot _ |- _ => inversion H; subst end. simpl. auto.
  - induction m as [|c m IH]; simpl; [constructor|].
    intros [N F]. apply (LStarS Dot (String c "") m); [now constructor | auto].
Qed.

Lemma lang_Star_Dot_Cat (r : re) (m : string) :
  lang (Cat (Star Dot) r) m <->
  exists y m', m = y ++ m' /\ free_of newline y /\ lang r m'.
Proof.
  rewrite lang_Cat. split; intros (y & m' & E & H1 & H2); exists y, m';
    (repeat split; [assumption | now apply lang_Star_Dot | assumption]).
Qed.

Ltac compiled :=
  unfold MatchString;
  match goal with |- context [Compile ?p] =>
    let c := eval vm_compute in (Compile p) in change (Compile p) with c
  end; cbn [fst].

Ltac flatten :=
  repeat (progress (rewrite ?append_assoc, ?append_nil_r; simpl)).

Ltac peel H :=
  repeat first
    [ apply lang_Chr_Cat in H as (? & -> & H)
    | apply lang_Eps in H as -> ].

(** [isOrg]: the pattern [\.org] is found exactly in the paths in which
    [.org] occurs. *)
Lemma isOrg_spec (path : string) :
  fst (MatchString "\.org" path) = true <-> occurs ".org" path.
Proof.
  compiled. rewrite search_spec. unfold occurs. split.
  - intros (a & m & b & -> & H). peel H. now exists a, b.
  - intros (a & b & ->). exists a, ".org", b. split; [reflexivity|].
    repeat (apply lang_Chr_Cat; eexists; split; [reflexivity|]). constructor.
Qed.

(** [isClock]: [.*CLOCK:.*] is found exactly in the lines in which
    [CLOCK:] occurs. *)
Lemma isClock_spec (s : string) :
  fst (MatchString ".*CLOCK:.*" s) = true <-> occurs "CLOCK:" s.
Proof.
  compiled. rewrite search_spec. unfold occurs. split.
  - intros (a & m & b & -> & H).
    apply lang_Star_Dot_Cat in H as (x & m1 & -> & _ & H). peel H.
    apply lang_Star_Dot_Cat in H as (y & m2 & -> & _ & H). peel H.
    exists (a ++ x), (y ++ b). now flatten.
  - intros (a & b & ->). exists a, "CLOCK:", b. split; [reflexivity|].
    apply lang_Star_Dot_Cat. exists "", "CLOCK:". repeat split.
    repeat (apply lang_Chr_Cat; eexists; split; [reflexivity|]).
    apply lang_Star_Dot_Cat. exists "", "". repeat split. constructor.
Qed.

(** [isEnded]: [.*CLOCK:.*--.*=>.*] is found exactly in the strings that
    have [CLOCK:], then [--], then [=>], with no newline in between. *)
Lemma isEnded_spec (s : string) :
  fst (MatchString ".*CLOCK:.*--.*=>.*" s) = true <->
  exists a y z b, s = a ++ "CLOCK:" ++ y ++ "--" ++ z ++ "=>" ++ b
                  /\ free_of newline y /\ free_of newline z.
Proof.
  compiled. rewrite search_spec. split.
  - intros (a & m & b & -> & H).
    apply lang_Star_Dot_Cat in H as (x & m1 & -> & _ & H). peel H.
    apply lang_Star_Dot_Cat in H as (y & m2 & -> & Fy & H). peel H.
    apply lang_Star_Dot_Cat in H as (z & m3 & -> & Fz & H). peel H.
    apply lang_Star_Dot_Cat in H as (v & m4 & -> & _ & H). peel H.
    exists (a ++ x), y, z, (v ++ b). repeat split; [|assumption..].
    now flatten.
  - intros (a & y & z & b & -> & Fy & Fz).
    exists a, ("CLOCK:" ++ y ++ "--" ++ z ++ "=>"), b. split.
    { now flatten. }
    apply lang_Star_Dot_Cat. exists "", ("CLOCK:" ++ y ++ "--" ++ z ++ "=>").
    repeat split. simpl.
    repeat (apply lang_Chr_Cat; eexists; split; [reflexivity|]).
    apply lang_Star_Dot_Cat. exists y, ("--" ++ z ++ "=>"). repeat split; [assumption|].
    simpl. repeat (apply lang_Chr_Cat; eexists; split; [reflexivity|]).
    apply lang_Star_Dot_Cat. exists z, "=>". repeat split; [assumption|].
    repeat (apply lang_Chr_Cat; eexists; split; [reflexivity|]).
    apply lang_Star_Dot_Cat. exists "", "". repeat split. constructor.
Qed.

(** On a string without a newline, such as a line delivered by
    [ReadLine], [isEnded] is the closed-interval shape. *)
Lemma isEnded_line (s : string) :
  free_of newline s ->
  (fst (MatchString ".*CLOCK:.*--.*=>.*" s) = true <-> closed_interval s).
Proof.
  intros F. rewrite isEnded_spec. unfold closed_interval. split.
  - intros (a & y & z & b & E & _). now exists a, y, z, b.
  - intros (a & y & z & b & ->). exists a, y, z, b. split; [reflexivity|].
    apply free_of_append in F as [_ F].
    simpl in F. destruct F as (_ & _ & _ & _ & _ & _ & F).
    apply free_of_append in F as [Fy F]. simpl in F. destruct F as (_ & _ & F).
    apply free_of_append in F as [Fz _]. auto.
Qed.

End PatternFacts.

(** ** The loop over [ReadLine] *)

Section ReaderFacts.

Import bufio.

Lemma ReadLines_step {S : Type} (body : string -> S -> S) (b : Reader) (st : S) :
  ReadLines body b st =
  match ReadLine b with
  | (line, false, None, b') => ReadLines body b' (body line st)
  | (_, isPrefix, err, _) => (st, isPrefix, err)
  end.
Proof.
  funelim (ReadLines body b st).
  all: match goal with H : ReadLine _ = _ |- _ => rewrite H end.
  all: try reflexivity.

Qed.

Lemma Reader_ind (P : Reader -> Prop) :
  (forall b, (forall line b', ReadLine b = (line, false, None, b') -> P b') -> P b) ->
  forall b, P b.
Proof.
  intros step b. remember (String.length (rest b)) as n eqn:En. revert b En.
  induction n as [n IH] using lt_wf_ind. intros b ->.
  apply step. intros line b' E. apply (IH (String.length (rest b'))); [|reflexivity].
  eapply ReadLine_progress; eassumption.
Qed.

Lemma ReadLines_fold {S : Type} (body : string -> S -> S) (b : Reader) (st : S) :
  ReadLines body b st =
  (fold_left (fun st line => body line st) (delivered b) st,
   fst (loop_exit b), snd (loop_exit b)).
Proof.
  assert (G : forall b (acc : list string) (st : S),
             let '(ls, p, e) := ReadLines (fun line acc => acc ++ [line]) b acc in
             exists ls', ls = acc ++ ls' /\
               ReadLines body b st = (fold_left (fun st line => body line st) ls' st, p, e)).
  { clear b st. induction b as [b IH] using Reader_ind. intros acc st.
    rewrite (ReadLines_step _ b acc), (ReadLines_step body b st).
    destruct (ReadLine b) as [[[line p] e] b'].
    destruct p; [exists []; now rewrite app_nil_r|].
    destruct e; [exists []; now rewrite app_nil_r|].
    specialize (IH line b' eq_refl (acc ++ [line]) (body line st)).
    destruct (ReadLines _ b' (acc ++ [line])) as [[ls p] e].
    destruct IH as (ls' & -> & E). exists (line :: ls'). split; [|exact E].
    now rewrite <- app_assoc. }
  specialize (G b [] st). unfold delivered, loop_exit.
  destruct (ReadLines _ b []) as [[ls p] e]. destruct G as (ls' & -> & E).
  exact E.
Qed.

Lemma drop_last_spec (c : ascii) (line body : string) :
  drop_last c line = Some body -> line = (body ++ String c "")%string.
Proof.
  revert body. induction line as [|d line IH]; intros body; simpl; [discriminate|].
  destruct line as [|e line].
  - destruct (Ascii.eqb_spec d c) as [-> |]; [|discriminate]. now intros [= <-].
  - destruct (drop_last c (String e line)) as [body'|]; [|discriminate].
    intros [= <-]. simpl. now rewrite (IH body' eq_refl).
Qed.

Lemma ReadSlice_free (n : nat) (s line unread : string) (k : slice_end) :
  ReadSlice n s = (line, unread, k) ->
  match k with
  | Delim => exists body, line = (body ++ String newline "")%string /\ free_of newline body
  | _ => free_of newline line
  end.
Proof.
  revert s line unread k. induction n as [|n IH]; intros s line unread k; simpl.
  - intros [= <- <- <-]. exact I.
  - destruct s as [|c s]; [intros [= <- <- <-]; exact I|].
    destruct (Ascii.eqb_spec c newline) as [-> | N].
    + intros [= <- <- <-]. now exists "".
    + destruct (ReadSlice n s) as [[l u] k'] eqn:E. intros [= <- <- <-].
      specialize (IH _ _ _ _ E). destruct k'; simpl; auto.
      destruct IH as (body & -> & F). exists (String c body). simpl. auto.
Qed.

Lemma drop_last_snoc (c : ascii) (body : string) :
  drop_last c (body ++ String c "")%string = Some body.
Proof.
  induction body as [|d body IH]; simpl.
  - now rewrite Ascii.eqb_refl.
  - rewrite IH. now destruct body.
Qed.

(** A line handed to the loop has no newline in it. *)
Lemma ReadLine_free (b b' : Reader) (line : string) :
  ReadLine b = (line, false, None, b') -> free_of newline line.
Proof.
  unfold ReadLine.
  destruct (ReadSlice (size b) (rest b)) as [[l u] k] eqn:E.
  apply ReadSlice_free in E. destruct k.
  - destruct E as (body & -> & F). rewrite drop_last_snoc.
    destruct (drop_last carriage_return body) as [body2|] eqn:D2.
    + apply drop_last_spec in D2. subst body.
      apply free_of_append in F as [F _]. now intros [= <- _].
    + now intros [= <- _].
  - destruct (drop_last carriage_return l); intros [=].
  - destruct l; intros [=]. now subst.
Qed.

Lemma delivered_step (b : Reader) :
  delivered b =
  match ReadLine b with
  | (line, false, None, b') => line :: delivered b'
  | (_, _, _, _) => []
  end.
Proof.
  unfold delivered at 1. rewrite ReadLines_step.
  destruct (ReadLine b) as [[[line p] e] b']. destruct p; [reflexivity|].
  destruct e; [reflexivity|]. rewrite ReadLines_fold. simpl.
  generalize (delivered b'). intros ls.
  change [line] with ([] ++ [line]) at 1. 
  assert (G : forall acc : list string, fold_left (fun st l => st ++ [l]) ls acc = acc ++ ls).
  { induction ls as [|x ls IH]; intros acc; simpl; [now rewrite app_nil_r|].
    rewrite IH, <- app_assoc. reflexivity. }
  now rewrite G.
Qed.

Lemma delivered_free (b : Reader) (line : string) :
  In line (delivered b) -> free_of newline line.
Proof.
  induction b as [b IH] using Reader_ind. rewrite delivered_step.
  destruct (ReadLine b) as [[[l p] e] b'] eqn:E.
  destruct p; [intros []|]. destruct e; [intros []|].
  intros [<- | H]; [eapply ReadLine_free; eassumption | eapply IH; eauto].
Qed.

End ReaderFacts.

(** ** The deny decision *)

Section DecisionFacts.

Local Open Scope string_scope.

Lemma occurs_free (c : ascii) (s : string) :
  occurs (String c "") s <-> ~ free_of c s.
Proof.
  unfold occurs. induction s as [|d s IH]; simpl.
  - split; [intros (a & b & E); destruct a; discriminate | tauto].
  - split.
    + intros (a & b & E) [N F]. destruct a as [|x a]; simpl in E.
      * congruence.
      * injection E as _ E. apply IH; [now exists a, b | assumption].
    + intros N. destruct (Ascii.eqb_spec d c) as [-> | D].
      * now exists "", s.
      * destruct IH as [_ IH]. destruct IH as (a & b & ->); [tauto|].
        now exists (String d a), b.
Qed.

Lemma free_of_dec (c : ascii) (s : string) : {free_of c s} + {~ free_of c s}.
Proof.
  induction s as [|d s IH]; simpl; [now left|].
  destruct (Ascii.eqb_spec d c); [right; tauto|]. destruct IH; [left | right]; tauto.
Qed.

Lemma Split_free (c : ascii) (s : string) :
  free_of c s -> strings.Split s c = [s].
Proof.
  induction s as [|d s IH]; simpl; [reflexivity|]. intros [N F].
  destruct (Ascii.eqb_spec d c); [contradiction|]. now rewrite IH.
Qed.

Lemma Split_append (c : ascii) (a b : string) :
  free_of c a -> strings.Split (a ++ String c b) c = a :: strings.Split b c.
Proof.
  induction a as [|d a IH]; simpl.
  - now rewrite Ascii.eqb_refl.
  - intros [N F]. destruct (Ascii.eqb_spec d c); [contradiction|]. now rewrite IH.
Qed.

Lemma Split_nonempty (c : ascii) (s : string) :
  exists piece pieces, strings.Split s c = piece :: pieces.
Proof.
  induction s as [|d s (p & ps & IH)]; simpl; [eauto|].
  destruct (Ascii.eqb d c); [eauto|]. rewrite IH. eauto.
Qed.

Lemma Split_pieces_free (c : ascii) (s : string) :
  Forall (free_of c) (strings.Split s c).
Proof.
  induction s as [|d s IH]; simpl; [repeat constructor|].
  destruct (Ascii.eqb_spec d c) as [-> | N]; [constructor; [exact I | assumption]|].
  destruct (strings.Split s c) as [|p ps]; [repeat constructor; assumption|].
  inversion IH; subst. constructor; [simpl; auto | assumption].
Qed.

(** The first occurrence of [c], when there is one. *)
Lemma first_occurrence (c : ascii) (s : string) :
  ~ free_of c s -> exists a b, s = a ++ String c b /\ free_of c a.
Proof.
  induction s as [|d s IH]; simpl; [tauto|]. intros N.
  destruct (Ascii.eqb_spec d c) as [-> | D].
  - now exists "", s.
  - destruct IH as (a & b & -> & F); [tauto|]. exists (String d a), b. simpl. auto.
Qed.

(** [window] panics exactly on the tokens without a dash. *)
Lemma window_panics (token : string) :
  window token = Panics <-> ~ occurs "-" token.
Proof.
  rewrite occurs_free. unfold window. split.
  - intros H N. apply first_occurrence in N as (a & b & -> & F).
    rewrite Split_append in H by assumption.
    destruct (Split_nonempty "-" b) as (p & ps & E). rewrite E in H. discriminate.
  - intros N. assert (F : free_of "-" token) by (destruct (free_of_dec "-" token); tauto).
    now rewrite Split_free.
Qed.


Lemma window_ok (token : string) :
  occurs "-" token -> exists start stop, window token = Returns (start, stop).
Proof.
  intros O. destruct (window token) as [[start stop]|] eqn:E; [eauto|].
  apply window_panics in E. contradiction.
Qed.

(** The loop over the blacklist is a disjunction. *)
Lemma found_existsb (host : string) (hosts : list string) (found : bool) :
  fold_left (fun found pattern => found || strings.Contains host pattern) hosts found
  = found || existsb (strings.Contains host) hosts.
Proof.
  revert found. induction hosts as [|p hosts IH]; intros found; simpl.
  - now rewrite orb_false_r.
  - now rewrite IH, orb_assoc.
Qed.

Lemma matched_spec (host : string) (hosts : list string) :
  existsb (strings.Contains host) hosts = true <->
  exists pattern, In pattern hosts /\ occurs pattern host.
Proof.
  rewrite existsb_exists. split; intros (p & I & H); exists p;
    (split; [assumption | now apply Contains_spec]).
Qed.

(** A token without a dash makes the loop panic, wherever it stands. *)
Lemma hours_loop_panics (h : Z) (tokens : list string) (deny : bool) :
  (exists token, In token tokens /\ token <> "" /\ ~ occurs "-" token) ->
  hours_loop h tokens deny = Panics.
Proof.
  revert deny. induction tokens as [|t tokens IH]; intros deny (token & I & N & D).
  - destruct I.
  - simpl. destruct (String.eqb_spec t "") as [-> | Nt].
    + destruct I as [<- | I]; [congruence|]. apply IH. eauto.
    + destruct (window t) as [[start stop]|] eqn:W; [|reflexivity]. simpl.
      destruct I as [-> | I].
      * apply window_panics in D. congruence.
      * apply IH. eauto.
Qed.

(** On tokens that can be taken apart the loop returns, and it only ever
    turns [deny] on. *)
Lemma hours_loop_returns (h : Z) (tokens : list string) (deny : bool) :
  Forall token_ok tokens ->
  hours_loop h tokens deny = Returns (deny || existsb (in_window h) tokens).
Proof.
  revert deny. induction tokens as [|t tokens IH]; intros deny F; simpl.
  - now rewrite orb_false_r.
  - inversion F as [|? ? T F']; subst. unfold in_window at 1.
    destruct (String.eqb_spec t "") as [-> | Nt]; [now apply IH|].
    destruct T as [-> | O]; [congruence|].
    destruct (window_ok t O) as (start & stop & ->). simpl.
    rewrite IH by assumption. f_equal.
    rewrite Z.geb_leb. destruct ((start <=? h)%Z && (h <=? stop)%Z); simpl;
      [now rewrite orb_true_r | reflexivity].
Qed.

Lemma in_window_spec (h : Z) (token : string) :
  in_window h token = true <->
  token <> "" /\ exists start stop,
    window token = Returns (start, stop) /\ (start <= h <= stop)%Z.
Proof.
  unfold in_window. rewrite andb_true_iff, negb_true_iff, String.eqb_neq.
  destruct (window token) as [[start stop]|].
  - rewrite andb_true_iff, !Z.leb_le. split.
    + intros [N H]. split; [assumption|]. now exists start, stop.
    + intros [N (s & e & [= <- <-] & H)]. auto.
  - split; [intros [_ [=]] | intros [_ (s & e & [=] & _)]].
Qed.

(** [IsDenied] on a configuration all of whose tokens can be taken apart:
    the verdict is matched AND (block mode OR an hour window OR clocking). *)
Lemma IsDenied_formula (r : Redirector) (now : Z) (host : string) :
  Forall token_ok (Hours r) ->
  IsDenied r now host =
  Returns (existsb (strings.Contains host) (Hosts r)
           && (Blockmode r || existsb (in_window now) (Hours r) || Clocking r)).
Proof.
  intros F. unfold IsDenied. rewrite found_existsb. simpl.
  destruct (Hours r) as [|t tokens] eqn:E.
  - simpl. now rewrite orb_false_r.
  - change (0 <? Datatypes.length (t :: tokens))%nat with true. cbv iota.
    now rewrite hours_loop_returns.
Qed.

Lemma IsDenied_panics (r : Redirector) (now : Z) (host : string) :
  (exists token, In token (Hours r) /\ token <> "" /\ ~ occurs "-" token) ->
  IsDenied r now host = Panics.
Proof.
  intros H. unfold IsDenied. destruct (Hours r) as [|t tokens] eqn:E.
  - destruct H as (? & [] & _).
  - change (0 <? Datatypes.length (t :: tokens))%nat with true. cbv iota.
    now rewrite hours_loop_panics.
Qed.

End DecisionFacts.

(** ** The clock watcher *)

Section WatcherFacts.

Local Arguments regexp.MatchString : simpl never.
Local Arguments NewReaderSize : simpl never.
Local Arguments Nat.mul : simpl never.
Local Arguments Visit : simpl never.

Lemma Node_nested_ind (P : Node -> Prop) :
  (forall path, P (NoInfo path)) ->
  (forall path, P (Plain path)) ->
  (forall path, P (Folder path None)) ->
  (forall path names, Forall P names -> P (Folder path (Some names))) ->
  forall n, P n.
Proof.
  intros HN HP HU HF. fix IH 1. intros [path | path | path [names|]].
  - apply HN.
  - apply HP.
  - apply HF. induction names as [|n names IHn]; constructor; [apply IH | assumption].
  - apply HU.
Qed.

Lemma marker_spec (s : string) :
  free_of newline s -> (marker s = true <-> open_clock_marker s).
Proof.
  intros F. unfold marker, open_clock_marker.
  rewrite andb_true_iff, negb_true_iff, isClock_spec, <- (isEnded_line s F).
  now rewrite not_true_iff_false.
Qed.

Example open_entry_is_a_marker : marker "CLOCK: [2024-01-01 09:00]" = true.
Proof. vm_compute. reflexivity. Qed.

Example closed_entry_is_no_marker :
  marker "CLOCK: [2024-01-01 09:00]--[2024-01-01 10:00] => 1:00" = false.
Proof. vm_compute. reflexivity. Qed.

Lemma set_Clocking_same (r : Redirector) : set_Clocking (Clocking r) r = r.
Proof. now destruct r. Qed.

Lemma clock_line_spec (s : string) (r : Redirector) :
  clock_line s r = set_Clocking (Clocking r || marker s) r.
Proof.
  unfold clock_line. fold (marker s). destruct (marker s).
  - now rewrite orb_true_r.
  - now rewrite orb_false_r, set_Clocking_same.
Qed.

Lemma scan_lines (lines : list string) (st : state) :
  fold_left (fun st line => update (clock_line line) st) lines st
  = update (set_Clocking (Clocking (self st) || existsb marker lines)) st.
Proof.
  revert st. induction lines as [|l lines IH]; intros st; simpl.
  - rewrite orb_false_r. unfold update. rewrite set_Clocking_same. now destruct st.
  - rewrite IH. unfold update. simpl. rewrite clock_line_spec. simpl.
    now rewrite orb_assoc.
Qed.

Lemma after_loop_self (isPrefix : bool) (err : option error) (st : state) :
  self (snd (after_loop isPrefix err st)) = self st.
Proof. unfold after_loop. destruct isPrefix, err as [[]|]; reflexivity. Qed.


Lemma each_app {S : Type} (f : Node -> S -> result (option error * S))
    (l1 l2 : list Node) (st : S) :
  filepath.each f (l1 ++ l2) st =
  bind (filepath.each f l1 st) (fun '(err, st1) =>
    match err with
    | Some _ => Returns (err, st1)
    | None => filepath.each f l2 st1
    end).
Proof.
  revert st. induction l1 as [|n l1 IH]; intros st; simpl; [reflexivity|].
  destruct (f n st) as [[[e|] st1]|]; simpl; auto.
Qed.


End WatcherFacts.

(** ** [strconv.Atoi] *)

Section AtoiFacts.

Import strconv.
Local Open Scope Z_scope.

Lemma digit_range (c : ascii) (d : Z) : digit c = Some d -> 0 <= d <= 9.
Proof.
  unfold digit. destruct (_ && _) eqn:E; [|discriminate].
  apply andb_true_iff in E as [L U]. apply Z.leb_le in L, U.
  intros [= <-]. lia.
Qed.

Lemma digits_nonneg (s : string) (acc n : Z) :
  0 <= acc -> digits s acc = Some n -> 0 <= n.
Proof.
  revert acc. induction s as [|c s IH]; intros acc A; simpl.
  - now intros [= <-].
  - destruct (digit c) as [d|] eqn:D; [|discriminate].
    apply digit_range in D. apply IH. lia.
Qed.


(** Without a minus sign the value is not negative. *)
Lemma Atoi_nonneg (s : string) : free_of "-" s -> 0 <= fst (Atoi s).
Proof.
  intros F. unfold Atoi.
  assert (E : exists body,
             match s with
             | EmptyString => (false, s)
             | String c b =>
                 if Ascii.eqb c "+" then (false, b)
                 else if Ascii.eqb c "-" then (true, b) else (false, s)
             end = (false, body)).
  { destruct s as [|c b]; [eauto|]. destruct (Ascii.eqb c "+"); [eauto|].
    destruct (Ascii.eqb_spec c "-") as [-> |]; [|eauto]. simpl in F. tauto. }
  destruct E as (body & ->). destruct body as [|c body]; [simpl; lia|].
  destruct (digits (String c body) 0) as [n|] eqn:D; [|simpl; lia].
  apply digits_nonneg in D; [|lia].
  destruct (n >? maxInt); simpl; [unfold maxInt; lia | assumption].
Qed.

Lemma digits_string_of_uint (d : Decimal.uint) (acc : nat) :
  digits (NilEmpty.string_of_uint d) (Z.of_nat acc)
  = Some (Z.of_nat (Nat.of_uint_acc d acc)).
Proof.
  revert acc. induction d; intros acc; simpl; [reflexivity|..];
    rewrite <- IHd; f_equal; rewrite Nat.tail_mul_spec; lia.
Qed.

Lemma string_of_uint_free (d : Decimal.uint) : free_of "-" (NilEmpty.string_of_uint d).
Proof. induction d; simpl; auto; (split; [discriminate | assumption]). Qed.

Lemma Itoa_free (n : nat) : free_of "-" (Itoa n).
Proof. apply string_of_uint_free. Qed.

(** [Atoi] reads back what [Itoa] prints. *)
Lemma Atoi_Itoa (n : nat) : Z.of_nat n <= maxInt -> Atoi (Itoa n) = (Z.of_nat n, None).
Proof.
  intros B. unfold Atoi, Itoa.
  pose proof (digits_string_of_uint (Nat.to_uint n) 0) as D.
  change (Nat.of_uint_acc (Nat.to_uint n) 0) with (Nat.of_uint (Nat.to_uint n)) in D.
  rewrite DecimalNat.Unsigned.of_to in D. change (Z.of_nat 0) with 0 in D.
  destruct (NilEmpty.string_of_uint (Nat.to_uint n)) as [|c body] eqn:E.
  - injection D as D. destruct n; [discriminate E | lia].
  - destruct (Ascii.eqb_spec c "+") as [-> |]; [discriminate D|].
    destruct (Ascii.eqb_spec c "-") as [-> |]; [discriminate D|].
    rewrite D. destruct (Z.of_nat n >? maxInt) eqn:G; [lia | reflexivity].
Qed.

End AtoiFacts.

(** ** The hours flag *)

Section FlagFacts.

Local Open Scope string_scope.

Example hours_flag_of_the_usage_message :
  hours_flag [(8, 11); (13, 17)]%nat = "8-11,13-17".
Proof. reflexivity. Qed.

Lemma string_of_uint_digits (c : ascii) (d : Decimal.uint) :
  strconv.digit c = None -> free_of c (NilEmpty.string_of_uint d).
Proof.
  intros N. induction d; simpl; auto; (split; [intros <-; discriminate N | assumption]).
Qed.

Lemma token_free (w : nat * nat) : free_of "," (token w).
Proof.
  unfold token. apply free_of_append. split; [now apply string_of_uint_digits|].
  simpl. split; [discriminate | now apply string_of_uint_digits].
Qed.

Lemma token_nonempty (w : nat * nat) : token w <> "".
Proof. unfold token. destruct (Itoa (fst w)); discriminate. Qed.

Lemma Split_concat (c : ascii) (t : string) (ts : list string) :
  Forall (free_of c) (t :: ts) ->
  strings.Split (String.concat (String c "") (t :: ts)) c = t :: ts.
Proof.
  revert t. induction ts as [|u ts IH]; intros t F; inversion F as [|? ? Ft F']; subst.
  - cbn [String.concat]. now apply Split_free.
  - cbn [String.concat]. change (String c "" ++ ?x) with (String c x).
    rewrite Split_append by assumption. now rewrite <- IH.
Qed.

(** [main] splits the flag back into its tokens; no windows give the one
    empty token. *)
Lemma Split_hours_flag (windows : list (nat * nat)) :
  strings.Split (hours_flag windows) ","
  = match windows with
    | [] => [""]
    | _ :: _ => map token windows
    end.
Proof.
  unfold hours_flag. destruct windows as [|w windows]; [reflexivity|].
  cbn [map]. apply (Split_concat ","). rewrite <- (map_cons token).
  apply Forall_forall. intros t I. apply in_map_iff in I as (x & <- & _).
  apply token_free.
Qed.

Lemma window_token (w : nat * nat) :
  fits w -> window (token w) = Returns (Z.of_nat (fst w), Z.of_nat (snd w)).
Proof.
  intros [Bs Be]. unfold window, token.
  change ("-" ++ Itoa (snd w)) with (String "-" (Itoa (snd w))).
  rewrite Split_append by apply Itoa_free. rewrite Split_free by apply Itoa_free.
  cbn [slice_index nth_error bind]. now rewrite !Atoi_Itoa.
Qed.

Lemma token_token_ok (w : nat * nat) : token_ok (token w).
Proof. right. now exists (Itoa (fst w)), (Itoa (snd w)). Qed.

Lemma in_window_token (h : Z) (w : nat * nat) :
  fits w -> (in_window h (token w) = true <-> contains h w).
Proof.
  intros F. rewrite in_window_spec, (window_token w F). unfold contains. split.
  - intros [_ (s & e & E & H)]. inversion E; subst. exact H.
  - intros H. split; [apply token_nonempty|]. eauto.
Qed.

Lemma hours_flag_ok (windows : list (nat * nat)) :
  Forall token_ok (strings.Split (hours_flag windows) ",").
Proof.
  rewrite Split_hours_flag. destruct windows as [|w windows].
  - constructor; [now left | constructor].
  - apply Forall_forall. intros t I. apply in_map_iff in I as (x & <- & _).
    apply token_token_ok.
Qed.

Lemma in_window_hours_flag (h : Z) (windows : list (nat * nat)) :
  Forall fits windows ->
  (existsb (in_window h) (strings.Split (hours_flag windows) ",") = true
   <-> exists w, In w windows /\ contains h w).
Proof.
  intros F. rewrite Split_hours_flag, existsb_exists. destruct windows as [|w0 windows].
  - split; [intros (t & [<- | []] & H); discriminate H | intros (w & [] & _)].
  - rewrite Forall_forall in F. split.
    + intros (t & I & H). apply in_map_iff in I as (w & <- & I). exists w.
      split; [assumption|]. now apply in_window_token; [apply F|].
    + intros (w & I & H). exists (token w). split; [now apply in_map|].
      now apply in_window_token; [apply F|].
Qed.

(** The verdict of [IsDenied] under a flag that configures windows. *)
Lemma IsDenied_windows (r : Redirector) (windows : list (nat * nat)) (now : Z)
    (host : string) :
  Hours r = strings.Split (hours_flag windows) "," ->
  Forall fits windows ->
  exists deny,
    IsDenied r now host = Returns deny
    /\ (deny = true <->
        (exists pattern, In pattern (Hosts r) /\ occurs pattern host)
        /\ (Blockmode r = true
            \/ (exists w, In w windows /\ contains now w)
            \/ Clocking r = true)).
Proof.
  intros E F. eexists. split.
  - apply IsDenied_formula. rewrite E. apply hours_flag_ok.
  - rewrite andb_true_iff, !orb_true_iff, matched_spec, E, in_window_hours_flag by assumption.
    tauto.
Qed.

End FlagFacts.

(** ** The blacklist loader *)

Section LoaderFacts.

Import bufio.

Lemma ReadSlice_line (n : nat) (line unread : string) :
  free_of newline line -> (String.length line < n)%nat ->
  ReadSlice n (line ++ String newline unread)
  = ((line ++ String newline "")%string, unread, Delim).
Proof.
  revert n. induction line as [|c line IH]; intros n F L; simpl in *.
  - destruct n; [lia | reflexivity].
  - destruct n; [lia|]. simpl. destruct F as [N F].
    destruct (Ascii.eqb_spec c newline); [contradiction|].
    rewrite IH; [reflexivity | assumption | lia].
Qed.

(** A line that fits the buffer and is ended by a newline is delivered
    as it is, up to a carriage return before the newline. *)
Lemma ReadLine_line (b : Reader) (line unread : string) :
  rest b = (line ++ String newline unread)%string ->
  free_of newline line -> (String.length line < size b)%nat ->
  drop_last carriage_return line = None ->
  ReadLine b = (line, false, None,
                {| size := size b; rest := unread; last := last b |}).
Proof.
  intros E F L D. unfold ReadLine. rewrite E, ReadSlice_line by assumption.
  now rewrite drop_last_snoc, D.
Qed.

Lemma ReadLine_end (b : Reader) :
  rest b = "" -> (0 < size b)%nat ->
  ReadLine b = ("", false, Some (last b),
                {| size := size b; rest := ""; last := last b |}).
Proof.
  intros E L. unfold ReadLine. rewrite E. destruct (size b); [lia | reflexivity].
Qed.

(** A file of well-formed lines is read back line by line. *)
Lemma delivered_unlines (lines : list string) (n : nat) (e : error) :
  (0 < n)%nat -> Forall (fits_buffer n) lines ->
  delivered {| size := n; rest := unlines lines; last := e |} = lines.
Proof.
  intros P F. induction F as [|line lines (Fl & D & L) _ IH]; rewrite delivered_step.
  - now rewrite ReadLine_end.
  - rewrite (ReadLine_line _ line (unlines lines)); try assumption; try reflexivity.
    cbn [size last]. now rewrite IH.
Qed.

Lemma scanned_unlines (lines : list string) :
  Forall (fits_buffer (16 * 1024)) lines ->
  scanned_lines {| contents := unlines lines; readFails := false |} = lines.
Proof.
  intros F. unfold scanned_lines, NewReaderSize. cbn [contents readFails].
  pose proof (Nat.le_max_l (16 * 1024) 16) as L1.
  pose proof (Nat.le_max_r (16 * 1024) 16) as L2.
  revert L1 L2 F. generalize (16 * 1024)%nat (Nat.max (16 * 1024) 16). intros n m L1 L2 F.
  apply delivered_unlines; [lia|].
  eapply Forall_impl; [|exact F]. intros line (Fl & D & L). repeat split; try assumption.
  lia.
Qed.

Lemma scanned_blank_lines (n : nat) :
  scanned_lines {| contents := blank_lines n; readFails := false |} = repeat "" n.
Proof.
  apply scanned_unlines. apply Forall_forall. intros line I.
  apply repeat_spec in I as ->. repeat split.
  change (0 < 16 * 1024)%nat. apply Nat.mul_pos_pos; lia.
Qed.

Lemma append_Hosts (lines : list string) (st : state) :
  fold_left (fun st s => update (fun r => set_Hosts (Hosts r ++ [s]) r) st) lines st
  = update (fun r => set_Hosts (Hosts r ++ lines) r) st.
Proof.
  revert st. induction lines as [|l lines IH]; intros st; simpl.
  - unfold update. rewrite app_nil_r. destruct st as [[] ?]. reflexivity.
  - rewrite IH. unfold update. simpl. now rewrite <- app_assoc.
Qed.

(** The loader appends the lines it reads to [Hosts] and changes nothing
    else of the [Redirector]. *)
Lemma InitHosts_loads (w : World) (st : state) (f : File) :
  os_Open w (Blacklist (self st)) = Some f ->
  self (snd (InitHosts w st))
  = set_Hosts (Hosts (self st) ++ scanned_lines f) (self st).
Proof.
  intros E. unfold InitHosts. cbn [self emit]. rewrite E.
  rewrite ReadLines_fold, append_Hosts. fold (scanned_lines f).
  destruct (loop_exit _) as [p x]. cbn [fst snd]. now rewrite after_loop_self.
Qed.

(** When the blacklist cannot be opened the loader leaves the
    [Redirector] as it was and returns the error. *)
Lemma InitHosts_open_fails (w : World) (st : state) :
  os_Open w (Blacklist (self st)) = None ->
  fst (InitHosts w st) = Some (PathError "open")
  /\ self (snd (InitHosts w st)) = self st.
Proof. intros E. unfold InitHosts. cbn [self emit]. now rewrite E. Qed.

End LoaderFacts.

(** ** What [Visit] does to one file *)

Section VisitFacts.

Local Arguments regexp.MatchString : simpl never.
Local Arguments NewReaderSize : simpl never.
Local Arguments Nat.mul : simpl never.
Local Arguments Visit : simpl never.

Lemma after_loop_trace (isPrefix : bool) (err : option error) (st : state) :
  exists events, trace (snd (after_loop isPrefix err st)) = trace st ++ events.
Proof.
  unfold after_loop. destruct isPrefix; [eexists; reflexivity|].
  destruct err as [[]|]; try (eexists; reflexivity).
  exists []. now rewrite app_nil_r.
Qed.

(** [Visit] passes over a directory. *)
Lemma Visit_directory (w : World) (path : string) (e : option error) (st : state) :
  Visit w path (Some {| IsDir := true |}) e st = Returns (None, st).
Proof. reflexivity. Qed.

(** [Visit] passes over a file in whose path [.org] does not occur: nothing
    is opened and nothing changes. *)
Lemma Visit_untracked (w : World) (path : string) (e : option error) (st : state) :
  ~ occurs ".org" path ->
  Visit w path (Some {| IsDir := false |}) e st = Returns (None, st).
Proof.
  intros N. unfold Visit. cbn [IsDir].
  destruct (fst (regexp.MatchString "\.org" path)) eqn:E; [|reflexivity].
  apply isOrg_spec in E. contradiction.
Qed.

(** [Visit] opens a file in whose path [.org] occurs; when the file opens,
    its lines are scanned. *)
Lemma Visit_tracked (w : World) (path : string) (e : option error) (st : state) :
  occurs ".org" path ->
  exists err st' events,
    Visit w path (Some {| IsDir := false |}) e st = Returns (err, st')
    /\ trace st' = trace st ++ Opened path :: events
    /\ match os_Open w path with
       | Some f =>
           self st' = set_Clocking (Clocking (self st) || existsb marker (scanned_lines f))
                                   (self st)
       | None => err = Some (PathError "open") /\ self st' = self st
       end.
Proof.
  intros O. apply isOrg_spec in O. unfold Visit. cbn [IsDir]. rewrite O. cbn [negb].
  destruct (os_Open w path) as [f|].
  - rewrite ReadLines_fold, scan_lines. fold (scanned_lines f).
    destruct (loop_exit _) as [p x]. cbn [fst snd].
    set (st1 := update _ (emit (Opened path) st)).
    destruct (after_loop_trace p x st1) as (events & T).
    pose proof (after_loop_self p x st1) as S.
    destruct (after_loop p x st1) as [err st']. cbn [snd] in *.
    exists err, st', events. split; [reflexivity|]. split.
    + rewrite T. unfold st1. cbn [trace update emit]. now rewrite <- app_assoc.
    + rewrite S. reflexivity.
  - eexists _, _, [_]. split; [reflexivity|]. split.
    + cbn [trace emit]. now rewrite <- app_assoc.
    + split; reflexivity.
Qed.


Lemma clocks_spec (w : World) (path : string) :
  clocks w path = true <->
  occurs ".org" path /\ exists f line,
    os_Open w path = Some f /\ In line (scanned_lines f) /\ open_clock_marker line.
Proof.
  unfold clocks. rewrite andb_true_iff, isOrg_spec.
  destruct (os_Open w path) as [f|].
  - rewrite existsb_exists. split.
    + intros [O (line & I & M)]. split; [assumption|]. exists f, line.
      split; [reflexivity|]. split; [assumption|]. apply marker_spec; [|assumption].
      eapply delivered_free. exact I.
    + intros [O (f' & line & [= <-] & I & M)]. split; [assumption|]. exists line.
      split; [assumption|]. apply marker_spec; [|assumption].
      eapply delivered_free. exact I.
  - split; [intros [_ [=]] | intros [_ (f & line & [=] & _)]].
Qed.

End VisitFacts.

(** ** The claims *)

Section Claims.

Local Arguments regexp.MatchString : simpl never.
Local Arguments NewReaderSize : simpl never.
Local Arguments Nat.mul : simpl never.
Local Arguments Visit : simpl never.

Ltac occurs_by_search :=
  apply Contains_spec; vm_compute; reflexivity.

Ltac absent_by_search :=
  let H := fresh in intros H; apply Contains_spec in H; vm_compute in H; discriminate.

(** C1.  For every host, blacklist, block mode, clocking value, hour and
    configuration of hour windows, [IsDenied] returns, and it returns true
    exactly when some blacklisted pattern occurs in the host AND (block mode
    is on OR the hour lies in some configured window, both ends included,
    OR clocking is on).  A configuration is a list of windows, given to the
    program in the syntax of its hours flag. *)
Theorem C1_deny_is_matched_and_time_or_clocking (r : Redirector)
    (windows : list (nat * nat)) (now : Z) (host : string) :
  Hours r = strings.Split (hours_flag windows) "," ->
  Forall fits windows ->
  exists deny,
    IsDenied r now host = Returns deny
    /\ (deny = true <->
        (exists pattern, In pattern (Hosts r) /\ occurs pattern host)
        /\ (Blockmode r = true
            \/ (exists w, In w windows /\ contains now w)
            \/ Clocking r = true)).
Proof. apply IsDenied_windows. Qed.

Lemma C1_witness :
  exists deny,
    IsDenied working_hours 9 "www.facebook.com" = Returns deny
    /\ (deny = true <->
        (exists pattern, In pattern (Hosts working_hours)
                         /\ occurs pattern "www.facebook.com")
        /\ (Blockmode working_hours = true
            \/ (exists w, In w [(8, 11); (13, 17)]%nat /\ contains 9 w)
            \/ Clocking working_hours = true)).
Proof.
  apply (C1_deny_is_matched_and_time_or_clocking working_hours
           [(8, 11); (13, 17)]%nat 9%Z "www.facebook.com").
  - reflexivity.
  - repeat (apply Forall_cons; [split; vm_compute; discriminate|]). apply Forall_nil.
Defined.



(** C3.  [IsDenied] is claimed to return a boolean for every string given
    as the hours flag, also for one with a token without a dash.  It does
    not: whenever some non-empty token of the flag has no dash,
    [hours[1]] is out of range and [IsDenied] panics, for every host and
    hour, wherever the token stands. *)
Theorem C3_IsDenied_panics_without_dash (r : Redirector) (now : Z) (host token : string) :
  In token (Hours r) -> token <> "" -> ~ occurs "-" token ->
  IsDenied r now host = Panics.
Proof. intros I N D. apply IsDenied_panics. eauto. Qed.

Lemma C3_witness :
  IsDenied (main_flags ":8080" ":8081" "blacklist" "" false "8") 9 "example.com" = Panics.
Proof.
  apply (C3_IsDenied_panics_without_dash _ 9%Z "example.com" "8").
  - now left.
  - discriminate.
  - absent_by_search.
Defined.




(** C5 (counterexample).  The claim: an empty pattern matches nothing, so
    a blacklist of empty lines blocks no host.  Loading a blacklist of two
    empty lines gives two empty patterns, and with block mode on
    [example.com] is denied. *)
Lemma C5_counterexample :
  let st := {| self := main_flags ":8080" ":8081" "blacklist" "" true ""; trace := [] |} in
  let r := self (snd (InitHosts blank_blacklist st)) in
  Hosts r = [""; ""] /\ IsDenied r 9 "example.com" = Returns true.
Proof. split; reflexivity. Qed.

(** C5 (amended).  An empty line of the blacklist file gives an empty
    pattern, and the empty pattern occurs in every host: after loading a
    blacklist that consists of one or more empty lines the verdict, for
    every host, is block mode OR hour window OR clocking. *)
Theorem C5_empty_pattern_matches_every_host (w : World) (st : state) (n : nat)
    (windows : list (nat * nat)) (now : Z) (host : string) :
  os_Open w (Blacklist (self st)) = Some (plain_file (blank_lines (S n))) ->
  Hosts (self st) = [] ->
  Hours (self st) = strings.Split (hours_flag windows) "," ->
  Forall fits windows ->
  let r := self (snd (InitHosts w st)) in
  Hosts r = repeat "" (S n)
  /\ occurs "" host
  /\ exists deny,
       IsDenied r now host = Returns deny
       /\ (deny = true <->
           Blockmode r = true
           \/ (exists w, In w windows /\ contains now w)
           \/ Clocking r = true).
Proof.
  intros O E H F r.
  assert (R : r = set_Hosts (repeat "" (S n)) (self st)).
  { unfold r. rewrite (InitHosts_loads _ _ _ O), E. unfold plain_file.
    now rewrite scanned_blank_lines. }
  assert (M : occurs "" host) by apply Contains_spec, Contains_empty.
  split; [now rewrite R|]. split; [exact M|].
  destruct (IsDenied_windows r windows now host) as (deny & D & V);
    [now rewrite R | assumption|].
  exists deny. split; [exact D|]. rewrite V. split; [tauto|].
  intros T. split; [|exact T]. exists "". split; [|exact M].
  rewrite R. now left.
Qed.

Lemma C5_witness :
  let st := {| self := main_flags ":8080" ":8081" "blacklist" "" false "8-11"; trace := [] |} in
  let r := self (snd (InitHosts blank_blacklist st)) in
  Hosts r = repeat "" 2
  /\ occurs "" "example.com"
  /\ exists deny,
       IsDenied r 9 "example.com" = Returns deny
       /\ (deny = true <->
           Blockmode r = true
           \/ (exists w, In w [(8, 11)]%nat /\ contains 9 w)
           \/ Clocking r = true).
Proof.
  apply (C5_empty_pattern_matches_every_host blank_blacklist _ 1 [(8, 11)]%nat 9%Z
           "example.com").
  - reflexivity.
  - reflexivity.
  - reflexivity.
  - repeat (apply Forall_cons; [split; vm_compute; discriminate|]). apply Forall_nil.
Defined.




(** C7.  When the blacklist file cannot be opened the loader leaves the
    block list empty, and every host gets the verdict false, at every hour,
    with block mode on or off and clocking on or off, under every
    configuration of hour windows. *)
Theorem C7_missing_blacklist_fails_open (w : World)
    (proxy web blacklist orgdir : string) (windows : list (nat * nat))
    (blockmode clocking : bool) (now : Z) (host : string) :
  os_Open w blacklist = None ->
  let st := {| self := main_flags proxy web blacklist orgdir blockmode (hours_flag windows);
               trace := [] |} in
  fst (InitHosts w st) = Some (PathError "open")
  /\ Hosts (self (snd (InitHosts w st))) = []
  /\ IsDenied (set_Clocking clocking (self (snd (InitHosts w st)))) now host
     = Returns false.
Proof.
  intros O st.
  destruct (InitHosts_open_fails w st O) as [-> ->].
  split; [reflexivity|]. split; [reflexivity|].
  rewrite IsDenied_formula; [reflexivity | apply hours_flag_ok].
Qed.

Lemma C7_witness :
  let st := {| self := main_flags ":8080" ":8081" "blacklist" "" true "8-11,13-17";
               trace := [] |} in
  fst (InitHosts no_blacklist st) = Some (PathError "open")
  /\ Hosts (self (snd (InitHosts no_blacklist st))) = []
  /\ IsDenied (set_Clocking true (self (snd (InitHosts no_blacklist st)))) 9
              "www.facebook.com"
     = Returns false.
Proof.
  apply (C7_missing_blacklist_fails_open no_blacklist ":8080" ":8081" "blacklist" ""
           [(8, 11); (13, 17)]%nat true true 9%Z "www.facebook.com").
  reflexivity.
Defined.

(** C8.  A host in which no blacklisted pattern occurs gets the verdict
    false, at every hour, for every configuration of hour windows, with
    block mode on or off and clocking on or off. *)
Theorem C8_unmatched_host_is_allowed (r : Redirector) (windows : list (nat * nat))
    (now : Z) (host : string) :
  Hours r = strings.Split (hours_flag windows) "," ->
  (forall pattern, In pattern (Hosts r) -> ~ occurs pattern host) ->
  IsDenied r now host = Returns false.
Proof.
  intros E N. rewrite IsDenied_formula by (rewrite E; apply hours_flag_ok).
  destruct (existsb (strings.Contains host) (Hosts r)) eqn:M; [|reflexivity].
  apply matched_spec in M as (pattern & I & O). now apply N in O.
Qed.

Lemma C8_witness :
  IsDenied (set_Clocking true
              (set_Hosts ["facebook"; "youtube"]
                 (main_flags ":8080" ":8081" "blacklist" "" true "8-11,13-17")))
           9 "example.com"
  = Returns false.
Proof.
  apply (C8_unmatched_host_is_allowed _ [(8, 11); (13, 17)]%nat).
  - reflexivity.
  - intros pattern [<- | [<- | []]]; absent_by_search.
Defined.

(** C9.  The window of the token [start-stop] contains the hour [h]
    exactly when [start <= h <= stop]: on a matched host, with block mode
    and clocking off, [IsDenied] returns true exactly at those hours.  With
    the flag [8-11,13-17] hours 9 and 17 are inside a window and hour 12 is
    not. *)
Theorem C9_window_is_inclusive :
  (forall (r : Redirector) (start stop : nat) (h : Z) (host : string),
      (Z.of_nat start <= strconv.maxInt)%Z ->
      (Z.of_nat stop <= strconv.maxInt)%Z ->
      Hours r = [token (start, stop)] ->
      Blockmode r = false -> Clocking r = false ->
      (exists pattern, In pattern (Hosts r) /\ occurs pattern host) ->
      (IsDenied r h host = Returns true <-> (Z.of_nat start <= h <= Z.of_nat stop)%Z))
  /\ IsDenied working_hours 9 "www.facebook.com" = Returns true
  /\ IsDenied working_hours 12 "www.facebook.com" = Returns false
  /\ IsDenied working_hours 17 "www.facebook.com" = Returns true.
Proof.
  split; [|repeat split; reflexivity].
  intros r start stop h host Bs Be E Bm Ck M.
  rewrite IsDenied_formula
    by (rewrite E; constructor; [apply token_token_ok | constructor]).
  apply matched_spec in M. rewrite M, E, Bm, Ck.
  pose proof (in_window_token h (start, stop) (conj Bs Be)) as W.
  unfold contains in W. cbn [fst snd] in W.
  cbn [existsb]. destruct (in_window h (token (start, stop))); cbn [orb andb];
    split; intros G.
  - now apply W.
  - reflexivity.
  - discriminate G.
  - apply W in G. discriminate G.
Qed.

Lemma C9_witness :
  IsDenied working_hours 11 "www.facebook.com" = Returns true <-> (8 <= 11 <= 11)%Z.
Proof.
  apply (proj1 C9_window_is_inclusive
           (set_Hosts ["facebook"] (main_flags ":8080" ":8081" "blacklist" "" false "8-11"))
           8%nat 11%nat 11%Z "www.facebook.com").
  - vm_compute. discriminate.
  - vm_compute. discriminate.
  - reflexivity.
  - reflexivity.
  - reflexivity.
  - exists "facebook". split; [now left | occurs_by_search].
Defined.

(** C10.  The filter of [Visit] is a substring test on the whole path: a
    file is opened and scanned exactly when [.org] occurs somewhere in its
    path.  So [notes.orgbak] is scanned, and so is every file below a
    directory in whose path [.org] occurs; a file is passed over only when
    [.org] occurs nowhere in its path. *)
Theorem C10_filter_is_a_substring_test (w : World) (path : string) (e : option error)
    (st : state) :
  (occurs ".org" path ->
   exists err st' events,
     Visit w path (Some {| IsDir := false |}) e st = Returns (err, st')
     /\ trace st' = trace st ++ Opened path :: events
     /\ match os_Open w path with
        | Some f =>
            self st' = set_Clocking (Clocking (self st) || existsb marker (scanned_lines f))
                                    (self st)
        | None => err = Some (PathError "open") /\ self st' = self st
        end)
  /\ (~ occurs ".org" path ->
      Visit w path (Some {| IsDir := false |}) e st = Returns (None, st))
  /\ occurs ".org" "org/notes.orgbak"
  /\ (forall dir name : string, occurs ".org" dir -> occurs ".org" (dir ++ "/" ++ name)%string).
Proof.
  split; [apply Visit_tracked|]. split; [apply Visit_untracked|].
  split; [occurs_by_search|].
  intros dir name (a & b & ->). exists a, (b ++ "/" ++ name)%string.
  now rewrite !append_assoc.
Qed.

Lemma C10_witness :
  exists st',
    IsClocking backup_file (watching "org") = Returns st'
    /\ Clocking (self st') = true
    /\ trace st' = [Opened "org/notes.orgbak"].
Proof.
  destruct (proj1 (C10_filter_is_a_substring_test backup_file "org/notes.orgbak" None
                     (update (set_Clocking false) (watching "org"))))
    as (err & st' & events & V & T & S).
  - occurs_by_search.
  - exists st'. vm_compute in V. injection V as <- <-. repeat split.
Defined.

End Claims.

(** ** The deny decision, for every configuration *)

Section DecisionMore.

Local Open Scope string_scope.

Lemma dashless_spec (token : string) :
  dashless token = true <-> token <> "" /\ ~ occurs "-" token.
Proof.
  unfold dashless. rewrite andb_true_iff, !negb_true_iff, String.eqb_neq.
  rewrite <- not_true_iff_false, Contains_spec. tauto.
Qed.

Lemma dashless_false (token : string) :
  dashless token = false <-> token_ok token.
Proof.
  rewrite <- not_true_iff_false, dashless_spec. unfold token_ok.
  destruct (String.eqb_spec token ""); [tauto|].
  destruct (strings.Contains token "-") eqn:C.
  - apply Contains_spec in C. tauto.
  - apply not_true_iff_false in C. rewrite Contains_spec in C. tauto.
Qed.

(** The loop over the tokens, for every list of tokens: a panic when some
    token is not empty and has no dash, and otherwise [deny] or a window
    that contains the hour. *)
Lemma hours_loop_decided (h : Z) (tokens : list string) (deny : bool) :
  hours_loop h tokens deny =
  if existsb dashless tokens then Panics
  else Returns (deny || existsb (in_window h) tokens).
Proof.
  destruct (existsb dashless tokens) eqn:E.
  - apply hours_loop_panics. apply existsb_exists in E as (t & I & D).
    apply dashless_spec in D. now exists t.
  - apply hours_loop_returns. apply Forall_forall. intros t I.
    apply dashless_false. destruct (dashless t) eqn:D; [|reflexivity].
    rewrite <- E. symmetry. apply existsb_exists. eauto.
Qed.

(** [IsDenied], for every [Redirector]. *)
Lemma IsDenied_decided (r : Redirector) (now : Z) (host : string) :
  IsDenied r now host =
  if existsb dashless (Hours r) then Panics
  else Returns (existsb (strings.Contains host) (Hosts r)
                && (Blockmode r || existsb (in_window now) (Hours r) || Clocking r)).
Proof.
  unfold IsDenied. rewrite found_existsb. cbn [orb].
  destruct (Hours r) as [|t tokens] eqn:E.
  - cbn. now rewrite orb_false_r.
  - change (0 <? Datatypes.length (t :: tokens))%nat with true. cbv iota.
    rewrite hours_loop_decided. now destruct (existsb dashless (t :: tokens)).
Qed.

End DecisionMore.

(** ** More about the deny decision *)

Section DecisionExtras.

Local Open Scope string_scope.

Ltac occurs_by_search :=
  apply Contains_spec; vm_compute; reflexivity.

Lemma existsb_same_elements {A : Type} (f : A -> bool) (l l' : list A) :
  (forall x, f x = true -> (In x l <-> In x l')) -> existsb f l = existsb f l'.
Proof.
  intros H. apply eq_true_iff_eq. rewrite !existsb_exists.
  split; intros (x & I & F); exists x; (split; [now apply (H x F) | assumption]).
Qed.

Lemma occurs_trans (a b c : string) : occurs a b -> occurs b c -> occurs a c.
Proof.
  intros (x & y & ->) (u & v & ->). exists (u ++ x), (y ++ v).
  now rewrite !append_assoc.
Qed.

(** X1.  The verdict depends on the blacklist only through the set of its
    patterns and on the hours flag only through the set of its non-empty
    tokens: order, repetitions and empty tokens make no difference, to the
    verdict or to a panic. *)
Theorem IsDenied_sets_only (r r' : Redirector) (now : Z) (host : string) :
  (forall pattern, In pattern (Hosts r) <-> In pattern (Hosts r')) ->
  (forall token, token <> "" -> (In token (Hours r) <-> In token (Hours r'))) ->
  Blockmode r = Blockmode r' ->
  Clocking r = Clocking r' ->
  IsDenied r now host = IsDenied r' now host.
Proof.
  intros Hp Ht Bm Ck. rewrite !IsDenied_decided, Bm, Ck.
  rewrite (existsb_same_elements dashless (Hours r) (Hours r')).
  2:{ intros t D. apply dashless_spec in D as [N _]. now apply Ht. }
  rewrite (existsb_same_elements (in_window now) (Hours r) (Hours r')).
  2:{ intros t D. apply in_window_spec in D as [N _]. now apply Ht. }
  rewrite (existsb_same_elements (strings.Contains host) (Hosts r) (Hosts r'));
    [reflexivity | intros; apply Hp].
Qed.

Lemma IsDenied_sets_only_witness :
  IsDenied (set_Hosts ["youtube"; "facebook"; "youtube"]
              (main_flags ":8080" ":8081" "blacklist" "" false "13-17,,8-11"))
           9 "www.facebook.com"
  = IsDenied (set_Hosts ["facebook"; "youtube"]
                (main_flags ":8080" ":8081" "blacklist" "" false "8-11,13-17"))
             9 "www.facebook.com".
Proof.
  apply IsDenied_sets_only.
  - intros p. cbn. tauto.
  - intros t N. cbn. intuition congruence.
  - reflexivity.
  - reflexivity.
Defined.

(** X2.  A verdict of deny is kept when patterns or tokens are added, when block
    mode is turned on and when clocking starts, as long as the tokens can
    still be taken apart: nothing in the configuration can exempt a host. *)
Theorem IsDenied_monotone (r r' : Redirector) (now : Z) (host : string) :
  IsDenied r now host = Returns true ->
  incl (Hosts r) (Hosts r') ->
  incl (Hours r) (Hours r') ->
  Forall token_ok (Hours r') ->
  (Blockmode r = true -> Blockmode r' = true) ->
  (Clocking r = true -> Clocking r' = true) ->
  IsDenied r' now host = Returns true.
Proof.
  intros D Ip It T Bm Ck. rewrite IsDenied_decided in D.
  destruct (existsb dashless (Hours r)); [discriminate D|]. injection D as D.
  rewrite IsDenied_formula by assumption. f_equal.
  apply andb_true_iff in D as [M V]. apply andb_true_iff. split.
  - apply existsb_exists in M as (p & I & C). apply existsb_exists. exists p.
    split; [now apply Ip | assumption].
  - rewrite !orb_true_iff in *. destruct V as [[B | W] | C]; [auto | | auto].
    left. right. apply existsb_exists in W as (t & I & C). apply existsb_exists.
    exists t. split; [now apply It | assumption].
Qed.

Lemma IsDenied_monotone_witness :
  IsDenied (set_Clocking true
              (set_Hosts ["youtube"; "facebook"]
                 (main_flags ":8080" ":8081" "blacklist" "" false "8-11,13-17")))
           9 "www.facebook.com"
  = Returns true.
Proof.
  apply (IsDenied_monotone
           (set_Hosts ["facebook"] (main_flags ":8080" ":8081" "blacklist" "" false "8-11"))).
  - reflexivity.
  - intros p [<- | []]. cbn. tauto.
  - intros t [<- | []]. cbn. tauto.
  - repeat (apply Forall_cons; [right; occurs_by_search|]). apply Forall_nil.
  - discriminate.
  - discriminate.
Defined.

(** X3.  A host in which a denied host occurs is denied as well: with a port,
    a subdomain or anything else around it. *)
Theorem IsDenied_superstring (r : Redirector) (now : Z) (host host' : string) :
  IsDenied r now host = Returns true ->
  occurs host host' ->
  IsDenied r now host' = Returns true.
Proof.
  intros D O. rewrite IsDenied_decided in *.
  destruct (existsb dashless (Hours r)); [discriminate D|]. injection D as D.
  f_equal. apply andb_true_iff in D as [M V]. rewrite V, andb_true_r.
  apply matched_spec in M as (p & I & C). apply matched_spec. exists p.
  split; [assumption | eapply occurs_trans; eassumption].
Qed.

Lemma IsDenied_superstring_witness :
  IsDenied (set_Hosts ["facebook"] (main_flags ":8080" ":8081" "blacklist" "" true ""))
           9 "m.facebook.com:443"
  = Returns true.
Proof.
  apply (IsDenied_superstring _ 9%Z "facebook.com").
  - reflexivity.
  - occurs_by_search.
Defined.

Lemma Atoi_bounds (s : string) :
  free_of "-" s -> (0 <= fst (strconv.Atoi s) <= strconv.maxInt)%Z.
Proof.
  intros F. split; [now apply Atoi_nonneg|].
  assert (P : (0 <= strconv.maxInt)%Z) by (vm_compute; discriminate).
  unfold strconv.Atoi.
  destruct s as [|c b]; [exact P|].
  destruct (Ascii.eqb c "+").
  - destruct b as [|d b]; [exact P|].
    destruct (strconv.digits (String d b) 0) as [n|]; [|exact P].
    destruct (Z.gtb_spec n strconv.maxInt); cbn [fst]; lia.
  - destruct (Ascii.eqb_spec c "-") as [-> | _]; [simpl in F; tauto|].
    destruct (strconv.digits (String c b) 0) as [m|]; [|exact P].
    destruct (Z.gtb_spec m strconv.maxInt); cbn [fst]; lia.
Qed.

(** X4.  The bounds of a window are never negative and never beyond Go's [int],
    whatever the token: a minus sign cannot reach [Atoi], and a number too
    large is clamped. *)
Theorem window_bounds (token : string) (start stop : Z) :
  window token = Returns (start, stop) ->
  (0 <= start <= strconv.maxInt)%Z /\ (0 <= stop <= strconv.maxInt)%Z.
Proof.
  unfold window. pose proof (Split_pieces_free "-" token) as F.
  destruct (strings.Split token "-") as [|a [|b pieces]]; try discriminate.
  cbn. intros E. inversion E; subst. inversion F as [|? ? Fa F']; subst.
  inversion F' as [|? ? Fb _]; subst. split; now apply Atoi_bounds.
Qed.

Lemma window_bounds_witness :
  (0 <= 0 <= strconv.maxInt)%Z /\ (0 <= strconv.maxInt <= strconv.maxInt)%Z.
Proof.
  apply (window_bounds "0-99999999999999999999"). vm_compute. reflexivity.
Defined.

(** X5.  Only the first two pieces of a token count: what follows a second dash
    is ignored. *)
Theorem window_ignores_third_piece (a b c : string) :
  free_of "-" a -> free_of "-" b ->
  window (a ++ "-" ++ b ++ "-" ++ c) = window (a ++ "-" ++ b).
Proof.
  intros Fa Fb. unfold window. cbn [append].
  rewrite !Split_append by assumption. rewrite (Split_free "-" b) by assumption.
  reflexivity.
Qed.

Lemma window_ignores_third_piece_witness :
  window "8-11-13" = window "8-11".
Proof.
  apply (window_ignores_third_piece "8" "11" "13"); simpl; repeat split; discriminate.
Defined.

End DecisionExtras.

(** ** The redirect and the handlers of the proxy *)

Section ProxyFacts.

Local Open Scope string_scope.

Lemma concat_cons (sep x : string) (rest : list string) :
  String.concat sep (x :: rest) = x ++ String.concat sep ("" :: rest).
Proof. destruct rest; cbn; [now rewrite append_nil_r | reflexivity]. Qed.

(** Joining the pieces of a split gives the string back. *)
Lemma Join_Split (s : string) (c : ascii) :
  Join (strings.Split s c) (String c "") = s.
Proof.
  unfold Join. induction s as [|d s IH]; [reflexivity|]. cbn [strings.Split].
  destruct (Split_nonempty c s) as (p & ps & E). rewrite E in *.
  destruct (Ascii.eqb_spec d c) as [-> | N].
  - change (String.concat (String c "") ("" :: p :: ps))
      with (String c (String.concat (String c "") (p :: ps))).
    now rewrite IH.
  - rewrite concat_cons. cbn [append]. rewrite <- concat_cons. now rewrite IH.
Qed.

(** X6.  [Redirect] never panics, and where it sends the request depends on
    [WebAddr] alone: to [WebAddr] itself, or to 127.0.0.1 with the port of
    [WebAddr] when [WebAddr] has no host part.  The scheme becomes [http] and
    [RequestURI] the new host; the path is kept. *)
Theorem Redirect_target (r : Redirector) (req : Request) :
  Redirect r req
  = Returns {| URL_Scheme := "http"; URL_Host := redirect_host (WebAddr r);
               URL_Path := URL_Path req; RequestURI := redirect_host (WebAddr r) |}.
Proof.
  unfold Redirect. pose proof (Join_Split (WebAddr r) ":") as J.
  destruct (WebAddr r) as [|c addr] eqn:E; [reflexivity|].
  cbn [strings.Split redirect_host] in *.
  destruct (Split_nonempty ":" addr) as (p & ps & S). rewrite S in *.
  destruct (Ascii.eqb c ":").
  - cbn [slice_index nth_error bind String.eqb slice_set].
    unfold Join in *. rewrite concat_cons, J. reflexivity.
  - cbn [slice_index nth_error bind String.eqb]. now rewrite J.
Qed.

(** X7.  Handling a request twice is handling it once: a redirected request
    stays where the first redirect sent it, also when the address of the web
    server is itself blacklisted. *)
Theorem OnRequest_idempotent (r : Redirector) (now : Z) (req req' : Request) :
  OnRequest r now req = Returns req' ->
  OnRequest r now req' = Returns req'.
Proof.
  unfold OnRequest. rewrite !IsDenied_decided.
  destruct (existsb dashless (Hours r)); [discriminate|]. cbn [bind].
  set (v := Blockmode r || existsb (in_window now) (Hours r) || Clocking r).
  destruct (existsb (strings.Contains (URL_Host req)) (Hosts r) && v) eqn:D.
  - rewrite !Redirect_target. cbn [bind]. intros [= <-]. cbn [URL_Host URL_Path].
    destruct (existsb (strings.Contains (redirect_host (WebAddr r))) (Hosts r) && v);
      reflexivity.
  - cbn [bind]. intros [= <-]. now rewrite D.
Qed.

Lemma OnRequest_idempotent_witness :
  let r := set_Hosts ["facebook"; "127.0.0.1"]
                     (main_flags ":8080" ":8081" "blacklist" "" true "") in
  let req' := {| URL_Scheme := "http"; URL_Host := "127.0.0.1:8081";
                 URL_Path := "/"; RequestURI := "127.0.0.1:8081" |} in
  OnRequest r 9 req' = Returns req'.
Proof.
  apply (OnRequest_idempotent _ 9%Z
           {| URL_Scheme := "https"; URL_Host := "www.facebook.com:443";
              URL_Path := "/"; RequestURI := "www.facebook.com:443" |}).
  reflexivity.
Defined.

(** The handler of CONNECT treats [ctx.Req] as the handler of requests
    does, and it always answers [OkConnect] with the host it was given: a
    denied CONNECT is redirected, never refused. *)
Theorem OnConnect_keeps_host (r : Redirector) (now : Z) (host : string) (req : Request) :
  OnConnect r now host req
  = (req' <- OnRequest r now req ;; Returns (OkConnect, host, req')).
Proof.
  unfold OnConnect, OnRequest.
  destruct (IsDenied r now (URL_Host req)) as [[|]|]; cbn [bind];
    try reflexivity; now destruct (Redirect r req).
Qed.

Lemma slice_from_1 (path : string) :
  slice_from path 1 = match path with
                      | EmptyString => Panics
                      | String _ name => Returns name
                      end.
Proof. destruct path; reflexivity. Qed.

(** [ServeHTTP] panics exactly on the empty path.  On any other path it
    serves the path without its first byte, unless [os.Stat] reports that
    name as missing: then, and only then, it serves [index.html]. *)
Theorem ServeHTTP_falls_back_to_index (os_Stat : string -> StatResult) (path : string) :
  match path with
  | EmptyString => ServeHTTP os_Stat path = Panics
  | String _ name =>
      ServeHTTP os_Stat path
      = Returns (if IsNotExist (os_Stat name) then "index.html" else name)
  end.
Proof.
  unfold ServeHTTP. rewrite slice_from_1. destruct path as [|c name]; [reflexivity|].
  cbn [bind]. now destruct (IsNotExist (os_Stat name)).
Qed.

End ProxyFacts.

(** ** More about the handlers and the web server *)

Section ProxyExtras.

Local Open Scope string_scope.

Ltac occurs_by_search :=
  apply Contains_spec; vm_compute; reflexivity.

(** X8.  A request that went through the handler of CONNECT is left alone by
    the handler of requests: the two handlers never redirect a request
    twice to different places, and CONNECT answers with the host it was
    given. *)
Theorem OnConnect_then_OnRequest (r : Redirector) (now : Z) (host host' : string)
    (req req' : Request) (action : ConnectAction) :
  OnConnect r now host req = Returns (action, host', req') ->
  host' = host /\ OnRequest r now req' = Returns req'.
Proof.
  rewrite OnConnect_keeps_host. destruct (OnRequest r now req) as [req1|] eqn:E; [|discriminate].
  cbn [bind]. intros [= _ <- <-]. split; [reflexivity|].
  eapply OnRequest_idempotent. exact E.
Qed.

Lemma OnConnect_then_OnRequest_witness :
  let r := set_Hosts ["facebook"] (main_flags ":8080" "web:8081" "blacklist" "" true "") in
  let req' := {| URL_Scheme := "http"; URL_Host := "web:8081";
                 URL_Path := ""; RequestURI := "web:8081" |} in
  "www.facebook.com:443" = "www.facebook.com:443" /\ OnRequest r 9 req' = Returns req'.
Proof.
  apply (OnConnect_then_OnRequest _ 9%Z "www.facebook.com:443" _
           {| URL_Scheme := ""; URL_Host := "www.facebook.com:443";
              URL_Path := ""; RequestURI := "www.facebook.com:443" |} _ OkConnect).
  reflexivity.
Defined.

(** X9.  [ServeHTTP] panics exactly on the empty path.  Otherwise it serves the
    path without its first byte or [index.html], and it never serves a name
    that [os.Stat] reports as missing, [index.html] apart. *)
Theorem ServeHTTP_serves_existing_or_index (os_Stat : string -> StatResult) (path : string) :
  (ServeHTTP os_Stat path = Panics <-> path = "")
  /\ (forall name,
        ServeHTTP os_Stat path = Returns name ->
        name = "index.html"
        \/ (IsNotExist (os_Stat name) = false /\ exists c, path = String c name)).
Proof.
  pose proof (ServeHTTP_falls_back_to_index os_Stat path) as S.
  destruct path as [|c rest]; rewrite S.
  - split; [tauto | discriminate].
  - split; [split; discriminate|]. intros name.
    destruct (IsNotExist (os_Stat rest)) eqn:E; intros [= <-]; [now left | right; eauto].
Qed.

(** X10.  With block mode on, the hour and the clock state make no difference:
    a host is denied exactly when a pattern occurs in it. *)
Theorem IsDenied_block_mode (r : Redirector) (now : Z) (host : string) :
  Blockmode r = true ->
  Forall token_ok (Hours r) ->
  exists deny,
    IsDenied r now host = Returns deny
    /\ (deny = true <-> exists pattern, In pattern (Hosts r) /\ occurs pattern host).
Proof.
  intros B F. rewrite IsDenied_formula by assumption. rewrite B. cbn [orb].
  rewrite andb_true_r. eexists. split; [reflexivity | apply matched_spec].
Qed.

Lemma IsDenied_block_mode_witness :
  exists deny,
    IsDenied (set_Hosts ["facebook"] (main_flags ":8080" ":8081" "blacklist" "" true "x-5"))
             23 "www.facebook.com" = Returns deny
    /\ (deny = true <->
        exists pattern, In pattern ["facebook"] /\ occurs pattern "www.facebook.com").
Proof.
  apply (IsDenied_block_mode
           (set_Hosts ["facebook"] (main_flags ":8080" ":8081" "blacklist" "" true "x-5"))).
  - reflexivity.
  - apply Forall_cons; [right; occurs_by_search | apply Forall_nil].
Defined.

End ProxyExtras.

(** ** Visits and walks act alike on every state *)

Section WalkFacts.

Local Arguments regexp.MatchString : simpl never.
Local Arguments NewReaderSize : simpl never.
Local Arguments Nat.mul : simpl never.
Local Arguments Visit : simpl never.

Lemma absorb_nothing (st : state) : absorb false [] st = st.
Proof.
  unfold absorb. rewrite orb_false_r, set_Clocking_same, app_nil_r. now destruct st.
Qed.

Lemma absorb_absorb (x1 x2 : bool) (ev1 ev2 : list event) (st : state) :
  absorb x2 ev2 (absorb x1 ev1 st) = absorb (x1 || x2) (ev1 ++ ev2) st.
Proof. unfold absorb. cbn. now rewrite orb_assoc, app_assoc. Qed.

Lemma after_loop_uniform (isPrefix : bool) (err : option error) :
  exists err' events,
    (forall st, after_loop isPrefix err st = (err', absorb false events st))
    /\ (forall path, ~ In (Opened path) events).
Proof.
  assert (L : forall ev st, emit ev st = absorb false [ev] st).
  { intros ev st. unfold absorb, emit. now rewrite orb_false_r, set_Clocking_same. }
  unfold after_loop. destruct isPrefix.
  - exists None, [LoggedText "buffer size to small"].
    split; [intros st; now rewrite L | intros path [H | []]; discriminate H].
  - destruct err as [[|op]|].
    + exists None, []. split; [intros st; now rewrite absorb_nothing | intros path []].
    + exists (Some (PathError op)), [LoggedError (Some (PathError op))].
      split; [intros st; now rewrite L | intros path [H | []]; discriminate H].
    + exists None, [LoggedError None].
      split; [intros st; now rewrite L | intros path [H | []]; discriminate H].
Qed.

(** [Visit] on an entry with a [FileInfo] does the same to every state. *)
Lemma Visit_uniform (w : World) (path : string) (info : FileInfo) (e : option error) :
  exists err events,
    (forall st, Visit w path (Some info) e st
                = Returns (err, absorb (negb (IsDir info) && clocks w path) events st))
    /\ (forall p, In (Opened p) events ->
                  p = path /\ IsDir info = false /\ occurs ".org" path)
    /\ (IsDir info = true -> err = None).
Proof.
  unfold Visit, clocks. destruct (IsDir info); cbn [negb andb].
  { exists None, []. split; [intros st; now rewrite absorb_nothing|].
    split; [intros p [] | reflexivity]. }
  destruct (fst (regexp.MatchString "\.org" path)) eqn:O; cbn [negb andb].
  2:{ exists None, []. split; [intros st; now rewrite absorb_nothing|].
      split; [intros p [] | discriminate]. }
  apply isOrg_spec in O. destruct (os_Open w path) as [f|].
  - destruct (after_loop_uniform (fst (loop_exit (NewReaderSize f (16 * 1024))))
                (snd (loop_exit (NewReaderSize f (16 * 1024))))) as (err & events & A & N).
    exists err, (Opened path :: events). split; [|split; [|discriminate]].
    + intros st. rewrite ReadLines_fold, scan_lines. fold (scanned_lines f).
      rewrite A. f_equal. f_equal. unfold absorb, update, emit. cbn.
      rewrite orb_false_r, <- app_assoc. reflexivity.
    + intros p [[= <-] | I]; [auto | now apply N in I].
  - exists (Some (PathError "open")),
           [Opened path; LoggedError (Some (PathError "open"))].
    split; [|split; [|discriminate]].
    + intros st. unfold absorb, emit. cbn.
      now rewrite orb_false_r, set_Clocking_same, <- app_assoc.
    + intros p [[= <-] | [H | []]]; [auto | discriminate H].
Qed.

(** A walk either panics from every state, or does the same to every
    state; [Clocking] can be turned on only by a file of the tree that
    [clocks], only tracked files of the tree are opened, and a walk that runs
    to its end has seen every file. *)
Lemma walk_uniform (w : World) (n : Node) :
  (forall st, filepath.walk (Visit w) n st = Panics)
  \/ exists err x events,
       (forall st, filepath.walk (Visit w) n st = Returns (err, absorb x events st))
       /\ (x = true -> exists path, In path (files n) /\ clocks w path = true)
       /\ (forall p, In (Opened p) events -> In p (files n) /\ occurs ".org" p)
       /\ (err = None -> x = existsb (clocks w) (files n)).
Proof.
  induction n as [path | path | path | path names IH] using Node_nested_ind.
  - left. reflexivity.
  - right. cbn [filepath.walk files].
    destruct (Visit_uniform w path {| IsDir := false |} None) as (err & events & V & O & _).
    exists err, (clocks w path), events. cbn [IsDir negb andb] in V.
    split; [exact V|]. split; [|split].
    + intros C. exists path. split; [now left | assumption].
    + intros p I. apply O in I as (-> & _ & I). split; [now left | assumption].
    + intros _. cbn. now rewrite orb_false_r.
  - right. exists None, false, []. cbn [filepath.walk files].
    split; [intros st; rewrite Visit_directory; now rewrite absorb_nothing|].
    split; [discriminate|]. split; [intros p [] | reflexivity].
  - cbn [filepath.walk files].
    assert (E : (forall st, filepath.each (filepath.walk (Visit w)) names st = Panics)
                \/ exists err x events,
                     (forall st, filepath.each (filepath.walk (Visit w)) names st
                                 = Returns (err, absorb x events st))
                     /\ (x = true -> exists path, In path (flat_map files names)
                                                  /\ clocks w path = true)
                     /\ (forall p, In (Opened p) events ->
                                   In p (flat_map files names) /\ occurs ".org" p)
                     /\ (err = None -> x = existsb (clocks w) (flat_map files names))).
    { induction IH as [|n names Hn _ IHnames].
      - right. exists None, false, []. split; [intros st; cbn; now rewrite absorb_nothing|].
        split; [discriminate|]. split; [intros p [] | reflexivity].
      - cbn [filepath.each flat_map].
        destruct Hn as [P | (err & x & events & W & X & O & C)].
        { left. intros st. now rewrite P. }
        destruct err as [e|].
        { right. exists (Some e), x, events. split; [intros st; now rewrite W|].
          split; [|split; [|discriminate]].
          - intros T. destruct (X T) as (p & I & K). exists p.
            split; [apply in_or_app; now left | assumption].
          - intros p I. apply O in I as [I K]. split; [apply in_or_app; now left | assumption]. }
        destruct IHnames as [P | (err' & x' & events' & W' & X' & O' & C')].
        { left. intros st. rewrite W. cbn [bind]. apply P. }
        right. exists err', (x || x'), (events ++ events').
        split; [intros st; rewrite W; cbn [bind]; now rewrite W', absorb_absorb|].
        split; [|split].
        + intros T. apply orb_true_iff in T as [T | T].
          * destruct (X T) as (p & I & K). exists p.
            split; [apply in_or_app; now left | assumption].
          * destruct (X' T) as (p & I & K). exists p.
            split; [apply in_or_app; now right | assumption].
        + intros p I. apply in_app_or in I as [I | I].
          * apply O in I as [I K]. split; [apply in_or_app; now left | assumption].
          * apply O' in I as [I K]. split; [apply in_or_app; now right | assumption].
        + intros N. rewrite existsb_app, <- C, <- C' by auto. reflexivity. }
    destruct E as [P | (err & x & events & W & X & O & C)].
    + left. intros st. rewrite Visit_directory. cbn [bind]. apply P.
    + right. exists err, x, events.
      split; [intros st; rewrite Visit_directory; cbn [bind]; apply W|]. auto.
Qed.

End WalkFacts.

(** ** More about the watcher *)

Section WatcherExtras.

Local Arguments regexp.MatchString : simpl never.
Local Arguments NewReaderSize : simpl never.
Local Arguments Nat.mul : simpl never.
Local Arguments Visit : simpl never.

(** One cycle, from any state: a panic, or [Clocking] is set to a value
    that the world decides, and events are appended. *)
Lemma IsClocking_uniform (w : World) (orgdir : string) :
  (forall st, OrgDir (self st) = orgdir -> IsClocking w st = Panics)
  \/ exists x events,
       (forall st, OrgDir (self st) = orgdir ->
                   IsClocking w st
                   = Returns {| self := set_Clocking x (self st);
                                trace := trace st ++ events |})
       /\ (x = true -> exists path, In path (files (tree w orgdir)) /\ clocks w path = true)
       /\ (forall p, In (Opened p) events ->
                     In p (files (tree w orgdir)) /\ occurs ".org" p).
Proof.
  destruct (walk_uniform w (tree w orgdir)) as [P | (err & x & events & W & X & O & _)].
  - left. intros st <-. unfold IsClocking, filepath.Walk. cbv zeta.
    cbn [self update set_Clocking OrgDir]. now rewrite P.
  - right. exists x, events. split; [|auto]. intros st <-.
    unfold IsClocking, filepath.Walk. cbv zeta.
    cbn [self update set_Clocking OrgDir]. now rewrite W.
Qed.

(** X11.  A cycle never reports clocking without an open clock marker, also when
    the walk is cut short by an error: if [Clocking] is true after a cycle,
    some tracked file of the tree has an open marker among its scanned
    lines. *)
Theorem IsClocking_sound (w : World) (st st' : state) :
  IsClocking w st = Returns st' ->
  Clocking (self st') = true ->
  exists path f line,
    In path (files (tree w (OrgDir (self st))))
    /\ occurs ".org" path
    /\ os_Open w path = Some f
    /\ In line (scanned_lines f)
    /\ open_clock_marker line.
Proof.
  intros H C.
  destruct (IsClocking_uniform w (OrgDir (self st))) as [P | (x & events & U & X & _)].
  - rewrite P in H by reflexivity. discriminate H.
  - rewrite U in H by reflexivity. inversion H; subst. cbn in C.
    destruct (X C) as (path & I & K). apply clocks_spec in K as [O (f & line & E & L & M)].
    now exists path, f, line.
Qed.

Lemma IsClocking_sound_witness :
  exists path f line,
    In path (files (tree clocked_in "org"))
    /\ occurs ".org" path
    /\ os_Open clocked_in path = Some f
    /\ In line (scanned_lines f)
    /\ open_clock_marker line.
Proof.
  eapply (IsClocking_sound clocked_in (watching "org")).
  - vm_compute. reflexivity.
  - reflexivity.
Defined.

(** X12.  A cycle opens no file but tracked files of the tree: every file opened
    during a cycle is a non-directory under the org directory with [.org] in
    its path. *)
Theorem IsClocking_opens_tracked_files_only (w : World) (st st' : state) :
  IsClocking w st = Returns st' ->
  exists events,
    trace st' = trace st ++ events
    /\ forall path, In (Opened path) events ->
                    In path (files (tree w (OrgDir (self st)))) /\ occurs ".org" path.
Proof.
  intros H.
  destruct (IsClocking_uniform w (OrgDir (self st))) as [P | (x & events & U & _ & O)].
  - rewrite P in H by reflexivity. discriminate H.
  - rewrite U in H by reflexivity. inversion H; subst. now exists events.
Qed.

Lemma IsClocking_opens_tracked_files_only_witness :
  exists st' events,
    IsClocking clocked_in (watching "org") = Returns st'
    /\ trace st' = trace (watching "org") ++ events
    /\ forall path, In (Opened path) events ->
                    In path (files (tree clocked_in "org")) /\ occurs ".org" path.
Proof.
  eexists.
  refine ((fun H => match IsClocking_opens_tracked_files_only clocked_in (watching "org") _ H
                    with ex_intro _ events K => ex_intro _ events (conj H K) end) _).
  vm_compute. reflexivity.
Defined.

Lemma cycles_app (ws ws' : list World) (st : state) :
  cycles (ws ++ ws') st = (st1 <- cycles ws st ;; cycles ws' st1).
Proof.
  revert st. induction ws as [|w ws IH]; intros st; [reflexivity|].
  cbn [app cycles]. destruct (IsClocking w st) as [st1|]; [|reflexivity].
  cbn [bind]. apply IH.
Qed.

Lemma IsClocking_self (w : World) (st st' : state) :
  IsClocking w st = Returns st' ->
  self st' = set_Clocking (Clocking (self st')) (self st).
Proof.
  intros H. destruct (IsClocking_uniform w (OrgDir (self st))) as [P | (x & events & U & _)].
  - rewrite P in H by reflexivity. discriminate H.
  - rewrite U in H by reflexivity. now inversion H.
Qed.

(** X13.  The watcher writes nothing but [Clocking]: after any number of cycles
    the blacklist, the hours, block mode and the addresses are what they
    were. *)
Theorem cycles_change_Clocking_only (worlds : list World) (st st' : state) :
  cycles worlds st = Returns st' ->
  self st' = set_Clocking (Clocking (self st')) (self st).
Proof.
  revert st. induction worlds as [|w ws IH]; intros st; cbn [cycles].
  - intros [= <-]. now rewrite set_Clocking_same.
  - destruct (IsClocking w st) as [st1|] eqn:E; [|discriminate]. cbn [bind].
    intros H. apply IH in H. cbn [self emit] in H. rewrite H.
    apply IsClocking_self in E. rewrite E. reflexivity.
Qed.

Lemma cycles_change_Clocking_only_witness :
  exists st',
    cycles [clocked_in; unreadable_first; clocked_in] (watching "org") = Returns st'
    /\ self st' = set_Clocking (Clocking (self st')) (self (watching "org")).
Proof.
  eexists.
  refine ((fun H => conj H (cycles_change_Clocking_only _ (watching "org") _ H)) _).
  vm_compute. reflexivity.
Defined.

(** X14.  The published state is that of the last cycle alone: after any number
    of cycles, [Clocking] is what one cycle over the last world gives from
    the first state.  Nothing of an earlier scan is kept. *)
Theorem cycles_last_world_decides (worlds : list World) (w : World) (st st' : state) :
  cycles (worlds ++ [w]) st = Returns st' ->
  exists st1,
    IsClocking w st = Returns st1
    /\ Clocking (self st') = Clocking (self st1).
Proof.
  rewrite cycles_app. destruct (cycles worlds st) as [st0|] eqn:E; [|discriminate].
  cbn [bind cycles]. apply cycles_change_Clocking_only in E.
  assert (D : OrgDir (self st0) = OrgDir (self st)) by now rewrite E.
  destruct (IsClocking_uniform w (OrgDir (self st))) as [P | (x & events & U & _)].
  - now rewrite P.
  - rewrite (U st0 D), (U st eq_refl). cbn [bind]. intros [= <-].
    eexists. split; reflexivity.
Qed.

Lemma cycles_last_world_decides_witness :
  exists st' st1,
    cycles ([clocked_in; clocked_in] ++ [unreadable_first]) (watching "org") = Returns st'
    /\ IsClocking unreadable_first (watching "org") = Returns st1
    /\ Clocking (self st') = Clocking (self st1).
Proof.
  eexists.
  refine ((fun H => match cycles_last_world_decides _ _ (watching "org") _ H
                    with ex_intro _ st1 K => ex_intro _ st1 (conj H K) end) _).
  vm_compute. reflexivity.
Defined.

(** Without an org directory the loop of the watcher is never started, and
    [Clocking] keeps the value it has. *)
Lemma Init_watcher_disabled (worlds : list World) (st : state) :
  OrgDir (self st) = "" -> Init_watcher worlds st = Returns st.
Proof. intros E. unfold Init_watcher. now rewrite E. Qed.

Lemma walk_returns (w : World) (n : Node) (st : state) :
  stat_ok n = true -> exists err st', filepath.walk (Visit w) n st = Returns (err, st').
Proof.
  revert st. induction n as [path | path | path | path names IH] using Node_nested_ind;
    intros st S.
  - discriminate S.
  - destruct (Visit_uniform w path {| IsDir := false |} None) as (err & events & V & _).
    cbn [filepath.walk]. rewrite V. eauto.
  - cbn [filepath.walk]. rewrite Visit_directory. eauto.
  - cbn [filepath.walk stat_ok] in *. rewrite Visit_directory. cbn [bind].
    revert st. induction IH as [|n names Hn _ IHnames]; intros st; cbn [filepath.each].
    + eauto.
    + cbn [forallb] in S. apply andb_true_iff in S as [Sn S].
      destruct (Hn st Sn) as (err & st1 & ->). cbn [bind].
      destruct err; [eauto | now apply IHnames].
Qed.

(** X15.  A cycle panics when the org directory itself cannot be examined, and
    it never panics when [Lstat] succeeds for every entry of the tree,
    whatever cannot be opened or read. *)
Theorem IsClocking_panics_only_without_FileInfo (w : World) (st : state) :
  (forall path, tree w (OrgDir (self st)) = NoInfo path -> IsClocking w st = Panics)
  /\ (stat_ok (tree w (OrgDir (self st))) = true ->
      exists st', IsClocking w st = Returns st').
Proof.
  unfold IsClocking, filepath.Walk. cbv zeta. cbn [self update set_Clocking OrgDir]. split.
  - intros path ->. reflexivity.
  - intros S.
    destruct (walk_returns w _ (update (set_Clocking false) st) S) as (err & st' & ->).
    cbn [bind]. eauto.
Qed.

Lemma IsClocking_panics_only_without_FileInfo_witness :
  IsClocking no_blacklist (watching "org") = Panics
  /\ exists st', IsClocking unreadable_first (watching "org") = Returns st'.
Proof.
  split.
  - apply (proj1 (IsClocking_panics_only_without_FileInfo no_blacklist (watching "org")) "org").
    reflexivity.
  - apply (proj2 (IsClocking_panics_only_without_FileInfo unreadable_first (watching "org"))).
    reflexivity.
Defined.

(** X16.  A directory that cannot be read does not end the walk, unlike a file
    that cannot be opened: the walk goes on as if the directory were not
    there. *)
Theorem unreadable_directory_is_skipped (w : World) (dir path : string)
    (before after : list Node) (st : state) :
  filepath.walk (Visit w) (Folder dir (Some (before ++ Folder path None :: after))) st
  = filepath.walk (Visit w) (Folder dir (Some (before ++ after))) st.
Proof.
  cbn [filepath.walk]. rewrite !Visit_directory. cbn [bind]. rewrite !each_app.
  destruct (filepath.each _ before st) as [[[e|] st1]|]; reflexivity.
Qed.

End WatcherExtras.

(** ** More about the loop over [ReadLine] *)

Section ReaderMore.

Import bufio.

Lemma loop_exit_step (b : Reader) :
  loop_exit b =
  match ReadLine b with
  | (_, false, None, b') => loop_exit b'
  | (_, isPrefix, err, _) => (isPrefix, err)
  end.
Proof.
  unfold loop_exit at 1. rewrite ReadLines_step.
  destruct (ReadLine b) as [[[line p] e] b']. destruct p; [reflexivity|].
  destruct e; [reflexivity|]. rewrite (ReadLines_fold _ b' ([] ++ [line])).
  now destruct (loop_exit b').
Qed.

Lemma ReadLine_record (b : Reader) (raw unread : string) :
  rest b = (raw ++ String newline unread)%string ->
  short (size b) raw ->
  ReadLine b = (chomp raw, false, None,
                {| size := size b; rest := unread; last := last b |}).
Proof.
  intros E [F L]. unfold ReadLine, chomp. rewrite E, ReadSlice_line by assumption.
  rewrite drop_last_snoc. now destruct (drop_last carriage_return raw).
Qed.

Lemma ReadSlice_tail (n : nat) (s : string) :
  short n s -> ReadSlice n s = (s, EmptyString, Drained).
Proof.
  intros [F L]. revert n L. induction s as [|c s IH]; intros n L; cbn in *.
  - destruct n; [lia | reflexivity].
  - destruct n; [lia|]. cbn. destruct F as [N F].
    destruct (Ascii.eqb_spec c newline); [contradiction|].
    rewrite IH; [reflexivity | assumption | lia].
Qed.

Lemma ReadSlice_full (n : nat) (long unread : string) :
  free_of newline long -> (n <= String.length long)%nat ->
  exists line rest', ReadSlice n (long ++ unread) = (line, rest', Full).
Proof.
  revert long. induction n as [|n IH]; intros long F L; cbn.
  - eauto.
  - destruct long as [|c long]; [cbn in L; lia|]. cbn in *. destruct F as [N F].
    destruct (Ascii.eqb_spec c newline); [contradiction|].
    destruct (IH long F) as (line & rest' & ->); [lia | eauto].
Qed.

(** Lines that fit the buffer are delivered one by one, whatever follows
    them. *)
Lemma delivered_records (n : nat) (e : error) (raws : list string) (tail : string) :
  Forall (short n) raws ->
  delivered {| size := n; rest := unlines raws ++ tail; last := e |}
  = map chomp raws ++ delivered {| size := n; rest := tail; last := e |}
  /\ loop_exit {| size := n; rest := unlines raws ++ tail; last := e |}
     = loop_exit {| size := n; rest := tail; last := e |}.
Proof.
  intros F. induction F as [|raw raws S _ [IH1 IH2]]; [split; reflexivity|].
  rewrite delivered_step, loop_exit_step.
  rewrite (ReadLine_record _ raw (unlines raws ++ tail)%string).
  - cbn [size last map app]. now rewrite IH1, IH2.
  - cbn [rest unlines]. now rewrite append_assoc.
  - exact S.
Qed.

Lemma delivered_end (n : nat) (e : error) :
  (0 < n)%nat ->
  delivered {| size := n; rest := ""; last := e |} = []
  /\ loop_exit {| size := n; rest := ""; last := e |} = (false, Some e).
Proof.
  intros P. rewrite delivered_step, loop_exit_step, ReadLine_end by (cbn; auto).
  split; reflexivity.
Qed.

Lemma delivered_tail (n : nat) (e : error) (tail : string) :
  tail <> EmptyString -> short n tail ->
  delivered {| size := n; rest := tail; last := e |} = [tail]
  /\ loop_exit {| size := n; rest := tail; last := e |} = (false, Some e).
Proof.
  intros N S. assert (P : (0 < n)%nat) by (destruct S; lia).
  assert (R : ReadLine {| size := n; rest := tail; last := e |}
              = (tail, false, None, {| size := n; rest := ""; last := e |})).
  { unfold ReadLine. cbn [size rest last]. rewrite ReadSlice_tail by assumption.
    destruct tail; [contradiction | reflexivity]. }
  rewrite delivered_step, loop_exit_step, R.
  destruct (delivered_end n e P) as [-> ->]. split; reflexivity.
Qed.

Lemma delivered_long (n : nat) (e : error) (long unread : string) :
  free_of newline long -> (n <= String.length long)%nat ->
  delivered {| size := n; rest := long ++ unread; last := e |} = []
  /\ loop_exit {| size := n; rest := long ++ unread; last := e |} = (true, None).
Proof.
  intros F L. rewrite delivered_step, loop_exit_step. unfold ReadLine.
  cbn [size rest last]. destruct (ReadSlice_full n long unread F L) as (line & r & ->).
  destruct (drop_last carriage_return line); split; reflexivity.
Qed.

Lemma chomp_fits (n : nat) (line : string) : fits_buffer n line -> chomp line = line.
Proof. intros (_ & D & _). unfold chomp. now rewrite D. Qed.

Lemma chomp_snoc (line : string) :
  chomp (line ++ String carriage_return "") = line.
Proof. unfold chomp. now rewrite drop_last_snoc. Qed.

Lemma buffer_size (f : File) :
  size (NewReaderSize f (16 * 1024)) = (16 * 1024)%nat.
Proof. cbn [NewReaderSize size]. apply Nat.max_l, Nat.leb_le. vm_compute. reflexivity. Qed.

End ReaderMore.

(** ** More about the loader *)

Section LoaderExtras.

Local Arguments regexp.MatchString : simpl never.
Local Arguments Nat.mul : simpl never.
Local Arguments Visit : simpl never.

Lemma after_loop_error (isPrefix : bool) (err : option error) (st : state) :
  fst (after_loop isPrefix err st) = exit_error (isPrefix, err).
Proof. unfold after_loop, exit_error. destruct isPrefix, err as [[]|]; reflexivity. Qed.

Lemma reader_of (f : File) :
  NewReaderSize f (16 * 1024)
  = {| bufio.size := 16 * 1024; bufio.rest := contents f;
       bufio.last := if readFails f then PathError "read" else EOF |}.
Proof.
  pose proof (buffer_size f) as B. unfold NewReaderSize in *. cbn [bufio.size] in B.
  now rewrite B.
Qed.

Lemma buffer_positive : (0 < 16 * 1024)%nat.
Proof. apply Nat.ltb_lt. vm_compute. reflexivity. Qed.

(** What the loop reads from a file made of lines that fit the buffer and
    a tail. *)
Lemma scanned_records (raws : list string) (tail : string) (fails : bool) :
  Forall (short (16 * 1024)) raws ->
  let rd tail := {| bufio.size := 16 * 1024; bufio.rest := tail;
                    bufio.last := if fails then PathError "read" else EOF |} in
  scanned_lines {| contents := unlines raws ++ tail; readFails := fails |}
  = map chomp raws ++ delivered (rd tail)
  /\ loop_exit (NewReaderSize {| contents := unlines raws ++ tail; readFails := fails |}
                              (16 * 1024))
     = loop_exit (rd tail).
Proof.
  intros F rd. unfold scanned_lines. rewrite reader_of. cbn [contents readFails].
  now apply delivered_records.
Qed.

Lemma InitHosts_error (w : World) (st : state) (f : File) :
  os_Open w (Blacklist (self st)) = Some f ->
  fst (InitHosts w st) = exit_error (loop_exit (NewReaderSize f (16 * 1024))).
Proof.
  intros E. unfold InitHosts. cbn [self emit]. rewrite E, ReadLines_fold.
  rewrite after_loop_error. now destruct (loop_exit _).
Qed.

Lemma InitHosts_trace (w : World) (st : state) (f : File) :
  os_Open w (Blacklist (self st)) = Some f ->
  loop_exit (NewReaderSize f (16 * 1024)) = (false, Some EOF) ->
  trace (snd (InitHosts w st)) = trace st ++ [Opened (Blacklist (self st))].
Proof.
  intros E X. unfold InitHosts. cbn [self emit]. rewrite E, ReadLines_fold, append_Hosts.
  now rewrite X.
Qed.

Lemma short_of_fits (line : string) :
  fits_buffer (16 * 1024) line -> short (16 * 1024) line.
Proof. intros (F & _ & L). now split. Qed.

Lemma map_chomp_fits (lines : list string) :
  Forall (fits_buffer (16 * 1024)) lines -> map chomp lines = lines.
Proof.
  induction 1 as [|l ls F _ IH]; [reflexivity|]. cbn.
  now rewrite IH, (chomp_fits _ _ F).
Qed.

(** X17.  Loading reads back what was written: a blacklist file of lines that
    fit the buffer, each ended by a newline, is appended to [Hosts] line by
    line and in order, empty lines and repeated lines included; no error is
    returned and nothing is logged. *)
Theorem InitHosts_reads_back (w : World) (st : state) (lines : list string) :
  os_Open w (Blacklist (self st)) = Some {| contents := unlines lines; readFails := false |} ->
  Forall (fits_buffer (16 * 1024)) lines ->
  InitHosts w st
  = (None, {| self := set_Hosts (Hosts (self st) ++ lines) (self st);
              trace := trace st ++ [Opened (Blacklist (self st))] |}).
Proof.
  intros O F.
  assert (S : Forall (short (16 * 1024)) lines)
    by (eapply Forall_impl; [apply short_of_fits | exact F]).
  destruct (scanned_records lines "" false S) as [D X].
  rewrite append_nil_r in D, X.
  destruct (delivered_end (16 * 1024) EOF buffer_positive) as [D0 X0].
  rewrite D0, app_nil_r, map_chomp_fits in D by assumption. rewrite X0 in X.
  pose proof (InitHosts_error w st _ O) as E. rewrite X in E.
  pose proof (InitHosts_loads w st _ O) as L. rewrite D in L.
  pose proof (InitHosts_trace w st _ O X) as T.
  destruct (InitHosts w st) as [err [r t]]. cbn in *. now subst.
Qed.

Lemma InitHosts_reads_back_witness :
  let w := {| os_Open := fun _ => Some {| contents := unlines ["facebook"; ""; "youtube"];
                                         readFails := false |};
              tree := fun root => NoInfo root |} in
  let st := {| self := main_flags ":8080" ":8081" "blacklist" "" false ""; trace := [] |} in
  InitHosts w st
  = (None, {| self := set_Hosts (Hosts (self st) ++ ["facebook"; ""; "youtube"]) (self st);
              trace := trace st ++ [Opened (Blacklist (self st))] |}).
Proof.
  apply InitHosts_reads_back; [reflexivity|].
  repeat (apply Forall_cons;
          [split; [cbn; repeat split; discriminate
                  | split; [reflexivity | apply Nat.ltb_lt; vm_compute; reflexivity]]|]).
  apply Forall_nil.
Defined.

(** X18.  A blacklist with DOS line ends loads like one with Unix line ends: the
    carriage return before a newline is no part of the pattern.  A last line
    without a newline is loaded as well. *)
Theorem InitHosts_crlf_and_last_line (w : World) (st : state) (lines : list string)
    (tail : string) :
  os_Open w (Blacklist (self st))
  = Some {| contents := unlines_crlf lines ++ tail; readFails := false |} ->
  Forall (fun line => short (16 * 1024) (line ++ String carriage_return "")) lines ->
  tail <> "" -> short (16 * 1024) tail ->
  fst (InitHosts w st) = None
  /\ self (snd (InitHosts w st))
     = set_Hosts (Hosts (self st) ++ lines ++ [tail]) (self st).
Proof.
  intros O F N T. unfold unlines_crlf in O.
  assert (S : Forall (short (16 * 1024))
                (map (fun line => line ++ String carriage_return "")%string lines)).
  { apply Forall_forall. intros raw I. apply in_map_iff in I as (l & <- & I).
    rewrite Forall_forall in F. now apply F. }
  destruct (scanned_records _ tail false S) as [D X].
  destruct (delivered_tail (16 * 1024) EOF tail N T) as [D0 X0].
  rewrite D0, map_map in D. rewrite X0 in X.
  rewrite (map_ext (fun l => chomp (l ++ String carriage_return "")) (fun l => l)) in D
    by (intros l; apply chomp_snoc).
  rewrite map_id in D.
  pose proof (InitHosts_error w st _ O) as E. rewrite X in E.
  pose proof (InitHosts_loads w st _ O) as L. rewrite D in L. now split.
Qed.

Lemma InitHosts_crlf_and_last_line_witness :
  let text := ("facebook" ++ String carriage_return (String newline "youtube"))%string in
  let w := {| os_Open := fun _ => Some {| contents := text; readFails := false |};
              tree := fun root => NoInfo root |} in
  let st := {| self := main_flags ":8080" ":8081" "blacklist" "" false ""; trace := [] |} in
  fst (InitHosts w st) = None
  /\ self (snd (InitHosts w st)) = set_Hosts (Hosts (self st) ++ ["facebook"] ++ ["youtube"]) (self st).
Proof.
  apply (InitHosts_crlf_and_last_line _ _ ["facebook"] "youtube").
  - reflexivity.
  - apply Forall_cons; [|apply Forall_nil].
    split; [cbn; repeat split; discriminate | apply Nat.ltb_lt; vm_compute; reflexivity].
  - discriminate.
  - split; [cbn; repeat split; discriminate | apply Nat.ltb_lt; vm_compute; reflexivity].
Defined.

(** X19.  A line of 16384 bytes or more ends the loading: the lines before it
    are kept, the long line and everything after it are left out, a warning
    is logged and no error is returned. *)
Theorem InitHosts_stops_at_long_line (w : World) (st : state) (lines : list string)
    (long unread : string) (fails : bool) :
  os_Open w (Blacklist (self st))
  = Some {| contents := unlines lines ++ long ++ unread; readFails := fails |} ->
  Forall (fits_buffer (16 * 1024)) lines ->
  free_of newline long -> (16 * 1024 <= String.length long)%nat ->
  InitHosts w st
  = (None, {| self := set_Hosts (Hosts (self st) ++ lines) (self st);
              trace := trace st ++ [Opened (Blacklist (self st));
                                    LoggedText "buffer size to small"] |}).
Proof.
  intros O F Fl L.
  assert (S : Forall (short (16 * 1024)) lines)
    by (eapply Forall_impl; [apply short_of_fits | exact F]).
  destruct (scanned_records lines (long ++ unread) fails S) as [D X].
  destruct (delivered_long (16 * 1024) (if fails then PathError "read" else EOF)
              long unread Fl L) as [D0 X0].
  rewrite D0, app_nil_r, map_chomp_fits in D by assumption. rewrite X0 in X.
  unfold InitHosts. cbn [self emit]. rewrite O, ReadLines_fold, append_Hosts.
  fold (scanned_lines {| contents := unlines lines ++ long ++ unread; readFails := fails |}).
  rewrite X, D. cbn [fst snd after_loop]. unfold emit, update. cbn.
  now rewrite <- app_assoc.
Qed.

(** X20.  Whatever the blacklist file is, the loader only ever appends to
    [Hosts]: the patterns already loaded stay in front, and no other field of
    the [Redirector] changes. *)
Theorem InitHosts_only_appends (w : World) (st : state) :
  exists lines,
    self (snd (InitHosts w st)) = set_Hosts (Hosts (self st) ++ lines) (self st).
Proof.
  destruct (os_Open w (Blacklist (self st))) as [f|] eqn:O.
  - exists (scanned_lines f). now apply InitHosts_loads.
  - exists []. destruct (InitHosts_open_fails w st O) as [_ ->].
    rewrite app_nil_r. now destruct (self st).
Qed.

(** X21.  A read error in the middle of the blacklist is returned, and the lines
    read before it stay loaded. *)
Theorem InitHosts_read_error (w : World) (st : state) (lines : list string) :
  os_Open w (Blacklist (self st)) = Some {| contents := unlines lines; readFails := true |} ->
  Forall (fits_buffer (16 * 1024)) lines ->
  fst (InitHosts w st) = Some (PathError "read")
  /\ self (snd (InitHosts w st)) = set_Hosts (Hosts (self st) ++ lines) (self st).
Proof.
  intros O F.
  assert (S : Forall (short (16 * 1024)) lines)
    by (eapply Forall_impl; [apply short_of_fits | exact F]).
  destruct (scanned_records lines "" true S) as [D X].
  rewrite append_nil_r in D, X.
  destruct (delivered_end (16 * 1024) (PathError "read") buffer_positive) as [D0 X0].
  rewrite D0, app_nil_r, map_chomp_fits in D by assumption. rewrite X0 in X.
  pose proof (InitHosts_error w st _ O) as E. rewrite X in E.
  pose proof (InitHosts_loads w st _ O) as L. rewrite D in L. now split.
Qed.

End LoaderExtras.

(** ** Long lines and read errors *)

Section ScanExtras.

Local Arguments regexp.MatchString : simpl never.
Local Arguments Nat.mul : simpl never.
Local Arguments Visit : simpl never.

Lemma filler_free (n : nat) : free_of newline (filler n).
Proof. induction n; cbn; [exact I | split; [discriminate | assumption]]. Qed.

Lemma filler_length (n : nat) : String.length (filler n) = n.
Proof. induction n; cbn; congruence. Qed.

Lemma InitHosts_stops_at_long_line_witness :
  let text := (unlines ["facebook"] ++ filler (16 * 1024) ++ unlines ["youtube"])%string in
  let w := {| os_Open := fun _ => Some {| contents := text; readFails := false |};
              tree := fun root => NoInfo root |} in
  let st := {| self := main_flags ":8080" ":8081" "blacklist" "" false ""; trace := [] |} in
  InitHosts w st
  = (None, {| self := set_Hosts (Hosts (self st) ++ ["facebook"]) (self st);
              trace := trace st ++ [Opened (Blacklist (self st));
                                    LoggedText "buffer size to small"] |}).
Proof.
  apply (InitHosts_stops_at_long_line _ _ ["facebook"] (filler (16 * 1024))
           (unlines ["youtube"]) false).
  - reflexivity.
  - apply Forall_cons; [|apply Forall_nil].
    split; [cbn; repeat split; discriminate
           | split; [reflexivity | apply Nat.ltb_lt; vm_compute; reflexivity]].
  - apply filler_free.
  - rewrite filler_length. apply le_n.
Defined.

Lemma InitHosts_read_error_witness :
  let w := {| os_Open := fun _ => Some {| contents := unlines ["facebook"];
                                         readFails := true |};
              tree := fun root => NoInfo root |} in
  let st := {| self := main_flags ":8080" ":8081" "blacklist" "" false ""; trace := [] |} in
  fst (InitHosts w st) = Some (PathError "read")
  /\ self (snd (InitHosts w st)) = set_Hosts (Hosts (self st) ++ ["facebook"]) (self st).
Proof.
  apply (InitHosts_read_error _ _ ["facebook"]).
  - reflexivity.
  - apply Forall_cons; [|apply Forall_nil].
    split; [cbn; repeat split; discriminate
           | split; [reflexivity | apply Nat.ltb_lt; vm_compute; reflexivity]].
Defined.

Lemma Visit_file (w : World) (path : string) (e : option error) (st : state) (f : File) :
  occurs ".org" path -> os_Open w path = Some f ->
  Visit w path (Some {| IsDir := false |}) e st
  = Returns (after_loop (fst (loop_exit (NewReaderSize f (16 * 1024))))
                        (snd (loop_exit (NewReaderSize f (16 * 1024))))
                        (update (set_Clocking (Clocking (self st)
                                               || existsb marker (scanned_lines f)))
                                (emit (Opened path) st))).
Proof.
  intros O E. apply isOrg_spec in O. unfold Visit. cbn [IsDir]. rewrite O, E. cbn [negb].
  rewrite ReadLines_fold, scan_lines. reflexivity.
Qed.

Lemma marker_among (lines : list string) :
  Forall (fits_buffer (16 * 1024)) lines ->
  (existsb marker lines = true <-> exists line, In line lines /\ open_clock_marker line).
Proof.
  intros F. rewrite Forall_forall in F. rewrite existsb_exists.
  split; intros (line & I & M); exists line; (split; [assumption|]);
    apply marker_spec; try assumption; now apply F.
Qed.

(** X22.  A line of 16384 bytes or more in a tracked file ends the scan of that
    file but not the walk: [Visit] returns no error, and only the lines
    before the long line count.  An open clock marker after it goes
    unnoticed. *)
Theorem Visit_stops_at_long_line (w : World) (path : string) (e : option error)
    (st : state) (lines : list string) (long unread : string) (fails : bool) :
  occurs ".org" path ->
  os_Open w path = Some {| contents := unlines lines ++ long ++ unread; readFails := fails |} ->
  Forall (fits_buffer (16 * 1024)) lines ->
  free_of newline long -> (16 * 1024 <= String.length long)%nat ->
  exists st',
    Visit w path (Some {| IsDir := false |}) e st = Returns (None, st')
    /\ (Clocking (self st') = true <->
        Clocking (self st) = true
        \/ exists line, In line lines /\ open_clock_marker line).
Proof.
  intros O E F Fl L.
  assert (S : Forall (short (16 * 1024)) lines)
    by (eapply Forall_impl; [apply short_of_fits | exact F]).
  destruct (scanned_records lines (long ++ unread) fails S) as [D X].
  destruct (delivered_long (16 * 1024) (if fails then PathError "read" else EOF)
              long unread Fl L) as [D0 X0].
  rewrite D0, app_nil_r, map_chomp_fits in D by assumption. rewrite X0 in X.
  rewrite (Visit_file w path e st _ O E), X, D. cbn [fst snd after_loop].
  eexists. split; [reflexivity|]. cbn [self emit update Clocking set_Clocking].
  now rewrite orb_true_iff, marker_among.
Qed.

Lemma Visit_stops_at_long_line_witness :
  let text := (unlines ["* task"] ++ filler (16 * 1024)
               ++ unlines [""; "  CLOCK: [2024-01-01 Mon 09:00]"])%string in
  let w := {| os_Open := fun _ => Some {| contents := text; readFails := false |};
              tree := fun root => Plain root |} in
  exists st',
    Visit w "notes.org" (Some {| IsDir := false |}) None (watching "notes.org")
    = Returns (None, st')
    /\ (Clocking (self st') = true <->
        Clocking (self (watching "notes.org")) = true
        \/ exists line, In line ["* task"] /\ open_clock_marker line).
Proof.
  apply (Visit_stops_at_long_line _ "notes.org" None _ ["* task"] (filler (16 * 1024))
           (unlines [""; "  CLOCK: [2024-01-01 Mon 09:00]"]) false).
  - apply Contains_spec. vm_compute. reflexivity.
  - reflexivity.
  - apply Forall_cons; [|apply Forall_nil].
    split; [cbn; repeat split; discriminate
           | split; [reflexivity | apply Nat.ltb_lt; vm_compute; reflexivity]].
  - apply filler_free.
  - rewrite filler_length. apply le_n.
Defined.

(** X23.  A read error in a tracked file is returned by [Visit], which ends the
    walk as a failed open does; the lines read before the error count. *)
Theorem Visit_read_error (w : World) (path : string) (e : option error)
    (st : state) (lines : list string) :
  occurs ".org" path ->
  os_Open w path = Some {| contents := unlines lines; readFails := true |} ->
  Forall (fits_buffer (16 * 1024)) lines ->
  exists st',
    Visit w path (Some {| IsDir := false |}) e st = Returns (Some (PathError "read"), st')
    /\ (Clocking (self st') = true <->
        Clocking (self st) = true
        \/ exists line, In line lines /\ open_clock_marker line).
Proof.
  intros O E F.
  assert (S : Forall (short (16 * 1024)) lines)
    by (eapply Forall_impl; [apply short_of_fits | exact F]).
  destruct (scanned_records lines "" true S) as [D X].
  rewrite append_nil_r in D, X.
  destruct (delivered_end (16 * 1024) (PathError "read") buffer_positive) as [D0 X0].
  rewrite D0, app_nil_r, map_chomp_fits in D by assumption. rewrite X0 in X.
  rewrite (Visit_file w path e st _ O E), X, D. cbn [fst snd after_loop].
  eexists. split; [reflexivity|]. cbn [self emit update Clocking set_Clocking].
  now rewrite orb_true_iff, marker_among.
Qed.

Lemma Visit_read_error_witness :
  let w := {| os_Open := fun _ => Some {| contents := unlines ["  CLOCK: [2024-01-01 Mon 09:00]"];
                                         readFails := true |};
              tree := fun root => Plain root |} in
  exists st',
    Visit w "notes.org" (Some {| IsDir := false |}) None (watching "notes.org")
    = Returns (Some (PathError "read"), st')
    /\ (Clocking (self st') = true <->
        Clocking (self (watching "notes.org")) = true
        \/ exists line, In line ["  CLOCK: [2024-01-01 Mon 09:00]"]
                        /\ open_clock_marker line).
Proof.
  apply (Visit_read_error _ "notes.org" None _ ["  CLOCK: [2024-01-01 Mon 09:00]"]).
  - apply Contains_spec. vm_compute. reflexivity.
  - reflexivity.
  - apply Forall_cons; [|apply Forall_nil].
    split; [cbn; repeat split; discriminate
           | split; [reflexivity | apply Nat.ltb_lt; vm_compute; reflexivity]].
Defined.

End ScanExtras.
